(** * EmailCampaign: discovery-and-verification pipeline

  A shallow embedding of the Python sources

    - [pattern_generator.py]  (candidate address generation)
    - [domain_finder.py]      (company name to domain resolution)
    - [email_verifier.py]     (SMTP probe)
    - [email_finder.py]       (per-contact orchestration)

  together with the properties the design document states about them.

  Conventions of the embedding.

  - A Python [str] is a Rocq [string]: a sequence of characters with code
    points below 256.  On that range [str.lower], [str.isspace] and the
    regular-expression class [\s] are modelled exactly.  A Python [bytes]
    value is a [string] as well, one character per byte; [bytes.decode()]
    is modelled by its only observable effect here, whether it raises.
  - [None] is [option]'s [None]; a raised exception is [None] in the
    result of a fallible step.
  - Network effects are answers of an environment ([World]) that may
    depend on everything that happened before; every network operation is
    recorded in a log, so that "no network access" is a statement about
    the log.
  - A coroutine is run in one piece, from its call to its return.  Where
    a statement depends on calls that overlap, the coroutine is given cut
    at an [await] as well, and a run is described by the calls that are
    under way ([DomainFinder.Run]). *)

From Stdlib Require Import Ascii String NArith Lia.
From stdpp Require Import base option list strings gmap sorting.

Local Open Scope N_scope.

(** ** Python string primitives *)

Module PyStr.

Definition ord (c : ascii) : N := N_of_ascii c.

Definition between (lo hi : N) (c : ascii) : bool :=
  (lo <=? ord c) && (ord c <=? hi).

(** [str.isspace] for one character, code points below 256: the ASCII
    white space HT LF VT FF CR, the separators FS GS RS US, the space, and
    NEL and NBSP.  The class [\s] of [re] on [str] patterns is the same
    set. *)
Definition is_space (c : ascii) : bool :=
  between 9 13 c || between 28 32 c || (ord c =? 133) || (ord c =? 160).

Definition is_az (c : ascii) : bool := between 97 122 c.
Definition is_AZ (c : ascii) : bool := between 65 90 c.
Definition is_digit (c : ascii) : bool := between 48 57 c.
Definition is_ascii (c : ascii) : bool := ord c <? 128.

(** [str.lower] for one character: A-Z, and the Latin-1 capitals
    U+00C0..U+00DE except the multiplication sign U+00D7. *)
Definition lower_char (c : ascii) : ascii :=
  if is_AZ c || (between 192 222 c && negb (ord c =? 215))
  then ascii_of_N (ord c + 32) else c.

Fixpoint map_str (f : ascii → ascii) (s : string) : string :=
  match s with
  | EmptyString => EmptyString
  | String c s' => String (f c) (map_str f s')
  end.

Fixpoint filter_str (p : ascii → bool) (s : string) : string :=
  match s with
  | EmptyString => EmptyString
  | String c s' => if p c then String c (filter_str p s') else filter_str p s'
  end.

Fixpoint all_str (p : ascii → bool) (s : string) : bool :=
  match s with
  | EmptyString => true
  | String c s' => p c && all_str p s'
  end.

(** [s.lower()] *)
Definition lower (s : string) : string := map_str lower_char s.

(** [s.lstrip()], [s.rstrip()], [s.strip()] *)
Fixpoint lstrip (s : string) : string :=
  match s with
  | EmptyString => EmptyString
  | String c s' => if is_space c then lstrip s' else s
  end.

Fixpoint rstrip (s : string) : string :=
  match s with
  | EmptyString => EmptyString
  | String c s' =>
      match rstrip s' with
      | EmptyString => if is_space c then EmptyString else String c EmptyString
      | r => String c r
      end
  end.

Definition strip (s : string) : string := rstrip (lstrip s).

(** [s.replace(a, b)] for single characters [a], [b]. *)
Definition replace_char (a b : ascii) (s : string) : string :=
  map_str (fun c => if Ascii.eqb c a then b else c) s.

(** [s.split()]: the maximal runs of non-blank characters, in order. *)
Fixpoint split (s : string) : list string :=
  match s with
  | EmptyString => []
  | String c s' =>
      if is_space c then split s'
      else match s' with
           | EmptyString => [String c EmptyString]
           | String c' _ =>
               if is_space c' then String c EmptyString :: split s'
               else match split s' with
                    | w :: ws => String c w :: ws
                    | [] => [String c EmptyString]
                    end
           end
  end.

(** [c in s] for a character [c]. *)
Fixpoint mem_char (c : ascii) (s : string) : bool :=
  match s with
  | EmptyString => false
  | String a s' => Ascii.eqb a c || mem_char c s'
  end.

(** [s.startswith(p)] *)
Fixpoint startswith (p s : string) : bool :=
  match p, s with
  | EmptyString, _ => true
  | String a p', String b s' => Ascii.eqb a b && startswith p' s'
  | String _ _, EmptyString => false
  end.

(** [p in s] for strings: [p] occurs in [s] as a contiguous substring. *)
Fixpoint contains (p s : string) : bool :=
  startswith p s ||
  match s with
  | EmptyString => false
  | String _ s' => contains p s'
  end.

(** [s.split(sep)] for a one-character separator: never empty. *)
Fixpoint split_on (sep : ascii) (s : string) : list string :=
  match s with
  | EmptyString => [EmptyString]
  | String c s' =>
      if Ascii.eqb c sep then EmptyString :: split_on sep s'
      else match split_on sep s' with
           | w :: ws => String c w :: ws
           | [] => [String c EmptyString]
           end
  end.

(** [s.rsplit(sep, 1)[1]] under the guard [sep in s]: what follows the
    last occurrence of [sep]. *)
Fixpoint after_last (sep : ascii) (s : string) : string :=
  match s with
  | EmptyString => EmptyString
  | String c s' =>
      if mem_char sep s' then after_last sep s'
      else if Ascii.eqb c sep then s' else EmptyString
  end.

(** [s[:n]] *)
Fixpoint take_str (n : nat) (s : string) : string :=
  match n, s with
  | S n', String c s' => String c (take_str n' s')
  | _, _ => EmptyString
  end.

(** [s.rstrip('.')] *)
Fixpoint rstrip_dots (s : string) : string :=
  match s with
  | EmptyString => EmptyString
  | String c s' =>
      match rstrip_dots s' with
      | EmptyString => if Ascii.eqb c "." then EmptyString else String c EmptyString
      | r => String c r
      end
  end.

(** Truthiness of a [str]: [not s] holds exactly for the empty string. *)
Definition nonempty (s : string) : bool :=
  match s with EmptyString => false | String _ _ => true end.

(** Truthiness of an optional [str]: false for [None] and for [""]. *)
Definition truthy (o : option string) : bool :=
  match o with Some s => nonempty s | None => false end.

(** [bytes.decode()] succeeds exactly on well-formed UTF-8 (strict error
    handler): no stray continuation byte, no overlong form, no surrogate,
    nothing above U+10FFFF. *)
Definition cont (c : ascii) : bool := between 128 191 c.

Fixpoint utf8_valid (b : string) : bool :=
  match b with
  | EmptyString => true
  | String b0 r0 =>
      if ord b0 <? 128 then utf8_valid r0
      else match r0 with
      | EmptyString => false
      | String b1 r1 =>
          if between 194 223 b0 then cont b1 && utf8_valid r1
          else match r1 with
          | EmptyString => false
          | String b2 r2 =>
              if between 224 239 b0 then
                (if ord b0 =? 224 then between 160 191 b1
                 else if ord b0 =? 237 then between 128 159 b1
                 else cont b1)
                && cont b2 && utf8_valid r2
              else match r2 with
              | EmptyString => false
              | String b3 r3 =>
                  between 240 244 b0
                  && (if ord b0 =? 240 then between 144 191 b1
                      else if ord b0 =? 244 then between 128 143 b1
                      else cont b1)
                  && cont b2 && cont b3 && utf8_valid r3
              end
          end
      end
  end.

End PyStr.

(** ** The fragment of [re] the sources use

  A pattern is a sequence of items; matching is Python's backtracking
  search: a quantifier first takes as much as it can and gives back one
  character at a time when the rest of the pattern fails. *)

Module Re.
Import PyStr.

Inductive item : Type :=
| Chr (p : ascii → bool)    (* one character of a class *)
| Opt (p : ascii → bool)    (* [x?] *)
| Star (p : ascii → bool)   (* [x*] *)
| Plus (p : ascii → bool)   (* [x+] *)
| Eol.                      (* [$]: at the end, or before a final newline *)

Definition newline : ascii := ascii_of_N 10.

Definition at_eol (s : string) : bool :=
  match s with
  | EmptyString => true
  | String c EmptyString => Ascii.eqb c newline
  | _ => false
  end.

Definition or_else {A} (x y : option A) : option A :=
  match x with Some _ => x | None => y end.

(** [match_len items s]: the number of characters the pattern consumes
    when matched at the start of [s], for the match Python finds. *)
Fixpoint match_len (items : list item) : string → option nat :=
  match items with
  | [] => fun _ => Some 0%nat
  | Eol :: rest => fun s => if at_eol s then match_len rest s else None
  | Chr p :: rest => fun s =>
      match s with
      | String c s' => if p c then S <$> match_len rest s' else None
      | EmptyString => None
      end
  | Opt p :: rest => fun s =>
      match s with
      | String c s' =>
          if p c then or_else (S <$> match_len rest s') (match_len rest s)
          else match_len rest s
      | EmptyString => match_len rest s
      end
  | Star p :: rest =>
      fix star (s : string) : option nat :=
        match s with
        | String c s' =>
            if p c then or_else (S <$> star s') (match_len rest s)
            else match_len rest s
        | EmptyString => match_len rest s
        end
  | Plus p :: rest =>
      fix plus (s : string) : option nat :=
        match s with
        | String c s' =>
            if p c then or_else (S <$> plus s') (S <$> match_len rest s')
            else None
        | EmptyString => None
        end
  end.

(** [bool(re.match(pattern, s))] *)
Definition matches (items : list item) (s : string) : bool :=
  match match_len items s with Some _ => true | None => false end.

(** [re.sub(pattern, '', s)]: every non-overlapping match, leftmost
    first, is deleted.  [skip] counts the characters of the current match
    that are still to be dropped. *)
Fixpoint sub_go (items : list item) (skip : nat) (s : string) : string :=
  match s with
  | EmptyString => EmptyString
  | String c s' =>
      match skip with
      | S k => sub_go items k s'
      | O =>
          match match_len items s with
          | Some (S k) => sub_go items k s'
          | _ => String c (sub_go items 0 s')
          end
      end
  end.

Definition sub_remove (items : list item) (s : string) : string :=
  sub_go items 0 s.

(** A literal, case-sensitively and under [re.IGNORECASE]. *)
Definition is_char (a : ascii) : ascii → bool := fun c => Ascii.eqb c a.
Definition is_char_ci (a : ascii) : ascii → bool :=
  fun c => Ascii.eqb (lower_char c) (lower_char a).

Fixpoint lit_ci (w : string) : list item :=
  match w with
  | EmptyString => []
  | String a w' => Chr (is_char_ci a) :: lit_ci w'
  end.

(** [.] matches everything but a newline. *)
Definition dot : ascii → bool := fun c => negb (Ascii.eqb c newline).

End Re.

(** ** pattern_generator.py *)

Module PatternGenerator.
Import PyStr.

Section WithUnidecode.

(** [unidecode] is a third-party transliteration function.  It is total
    on [str]; the [try]/[except: pass] around the call therefore never
    fires and is not modelled. *)
Variable unidecode : string → string.

(** [re.sub(r'[^a-z\s-]', '', name)] keeps exactly these characters. *)
Definition name_char (c : ascii) : bool :=
  is_az c || is_space c || Ascii.eqb c "-".

Definition normalize_name (name : option string) : string :=
  if negb (truthy name) then EmptyString
  else
    let name := unidecode (default EmptyString name) in
    let name := strip (lower name) in
    let name := filter_str name_char name in
    let name := replace_char "-" " " name in
    strip name.

(** [first_parts[0] if first_parts else ""] *)
Definition first_token (parts : list string) : string :=
  match parts with w :: _ => w | [] => EmptyString end.

(** [last_parts[-1] if last_parts else ""] *)
Definition last_token (parts : list string) : string :=
  match last parts with Some w => w | None => EmptyString end.

(** The sixteen local parts, in the order of the source. *)
Definition local_parts (f l : string) (fi li : ascii) : list string :=
  let fi := String fi EmptyString in
  let li := String li EmptyString in
  [ f +:+ "." +:+ l;
    f +:+ l;
    fi +:+ l;
    f +:+ "_" +:+ l;
    f;
    l;
    f +:+ li;
    fi +:+ "." +:+ l;
    l +:+ "." +:+ f;
    l +:+ f;
    l +:+ fi;
    fi +:+ li;
    f +:+ "-" +:+ l;
    l +:+ "-" +:+ f;
    fi +:+ "_" +:+ l;
    f +:+ "." +:+ li ].

Definition generate_email_patterns
    (first_name last_name : option string) (domain : string) : list string :=
  let first := normalize_name first_name in
  let last := normalize_name last_name in
  if negb (nonempty first) || negb (nonempty last) || negb (nonempty domain)
  then []
  else
    let f := first_token (split first) in
    let l := last_token (split last) in
    match f, l with
    | String fi _, String li _ =>
        (fun pattern => pattern +:+ "@" +:+ domain) <$> local_parts f l fi li
    | _, _ => []
    end.

(** The numeric variants of the extended mode: for each suffix, in the
    order ['1', '2', '01', '02'], three addresses. *)
Definition numbered (f l : string) (f0 : ascii) (domain : string)
    : list string :=
  num ← ["1"; "2"; "01"; "02"];
  [ f +:+ "." +:+ l +:+ num +:+ "@" +:+ domain;
    f +:+ l +:+ num +:+ "@" +:+ domain;
    String f0 EmptyString +:+ l +:+ num +:+ "@" +:+ domain ].

(** [if len(first_parts) > 1: mi = first_parts[1][0]; ...].  The tokens of
    [split] are never empty, so the index [[0]] cannot fail. *)
Definition with_middle (first_parts : list string) (f l domain : string)
    : list string :=
  match first_parts with
  | _ :: String mi _ :: _ =>
      let mi := String mi EmptyString in
      [ f +:+ "." +:+ mi +:+ "." +:+ l +:+ "@" +:+ domain;
        f +:+ mi +:+ l +:+ "@" +:+ domain ]
  | _ => []
  end.

Definition generate_email_patterns_extended
    (first_name last_name : option string) (domain : string) : list string :=
  let basic := generate_email_patterns first_name last_name domain in
  let first := normalize_name first_name in
  let last := normalize_name last_name in
  if negb (nonempty first) || negb (nonempty last) || negb (nonempty domain)
  then basic
  else
    let first_parts := split first in
    let f := first_token first_parts in
    let l := last_token (split last) in
    match f, l with
    | String f0 _, String _ _ =>
        let extended :=
          numbered f l f0 domain ++ with_middle first_parts f l domain in
        basic ++ extended
    | _, _ => basic
    end.

End WithUnidecode.

(** Vocabulary for the statements about the generator: the first
    character of a token, as a string, and the characters a normalized
    name is made of. *)
Definition initial (s : string) : string :=
  match s with
  | String c _ => String c EmptyString
  | EmptyString => EmptyString
  end.

Definition plain_char (c : ascii) : bool := is_az c || is_space c.

(** The numeric variants as the design document words them: each of the
    suffixes 1, 2, 01, 02 combined with the two most common base
    patterns, f.l and fl. *)
Definition numbered_two_bases (f l domain : string) : list string :=
  num ← ["1"; "2"; "01"; "02"];
  base ← [f +:+ "." +:+ l; f +:+ l];
  [base +:+ num +:+ "@" +:+ domain].

(** A stand-in for [unidecode] on which the generator can be run: ASCII
    is kept, the Latin-1 letters of the examples are transliterated,
    anything else is dropped. *)
Definition unidecode_sample (s : string) : string :=
  filter_str is_ascii
    (map_str (fun c =>
                if ord c =? 233 then "e"%char      (* e acute *)
                else if ord c =? 237 then "i"%char (* i acute *)
                else if ord c =? 243 then "o"%char (* o acute *)
                else c) s).

End PatternGenerator.

(** ** The environment: DNS, the web search and the mail servers *)

Module Env.

(** What the program does to the outside world.  A log lists the events
    newest first. *)
Inductive event : Type :=
| DnsQuery (rrtype domain : string)   (* [dns.resolver.resolve] *)
| WebSearch (company : string)        (* the GET on the search engine *)
| SmtpConnect (host : string)         (* [asyncio.open_connection(host, 25)] *)
| SmtpSend (host data : string)       (* [writer.write] and [drain] *)
| SmtpRecv (host : string)            (* [reader.readline] *)
| SmtpClose (host : string)           (* [writer.close] and [wait_closed] *)
| Sleep.                              (* [asyncio.sleep(0.5)] *)

(** One conversation with a mail server, as the client experiences it:
    whether the connection opens, what the [k]-th call of [readline]
    returns ([None]: the call raises, a timeout included), whether the
    [k]-th write-and-drain step succeeds, and whether closing the
    connection succeeds.  Calls are counted from 0. *)
Record Session : Type := {
  connects : bool;
  reads : nat → option string;
  writes : nat → bool;
  closes : bool
}.

(** A session given by the list of its replies and of the outcomes of its
    writes.  Past the end of [replies] a read returns [b''], as a stream
    at end of file does; past the end of [drains] a write succeeds. *)
Definition scripted (connects : bool) (replies : list (option string))
    (drains : list bool) (closes : bool) : Session :=
  {| connects := connects;
     reads := fun k => default (Some EmptyString) (replies !! k);
     writes := fun k => default true (drains !! k);
     closes := closes |}.

(** The answers of the outside world; each may depend on the log so far.
    - [dns_mx]: the (preference, exchange) records of an MX query, or
      [None] when [resolve] raises (no answer, no such domain, timeout);
    - [dns_a]: whether an A query resolves;
    - [web_search]: what [search_domain_duckduckgo] returns; it is a
      request to a search engine followed by scraping of the result page,
      and it turns every failure into [None];
    - [smtp]: the conversation a connection to a host will have. *)
Record World : Type := {
  dns_mx : list event → string → option (list (N * string));
  dns_a : list event → string → bool;
  web_search : list event → string → option string;
  smtp : list event → string → Session
}.

(** The mutable state of a run besides the orchestrator's own: the
    module-level [mx_cache] of [email_verifier.py] and the log. *)
Record state : Type := {
  mx_cache : gmap string (list string);
  log : list event
}.

Definition initial : state := {| mx_cache := ∅; log := [] |}.

Definition logged (e : event) (s : state) : state :=
  {| mx_cache := mx_cache s; log := e :: log s |}.

(** State passing. *)
Definition M (A : Type) : Type := state → A * state.

#[global] Instance M_ret : MRet M := fun A (a : A) s => (a, s).
#[global] Instance M_bind : MBind M := fun A B (k : A → M B) (m : M A) s =>
  let (a, s') := m s in k a s'.

Definition emit (e : event) : M unit := fun s => (tt, logged e s).

Definition history : M (list event) := fun s => (log s, s).

Definition get_mx_cache : M (gmap string (list string)) :=
  fun s => (mx_cache s, s).

Definition set_mx_cache (domain : string) (hosts : list string) : M unit :=
  fun s => (tt, {| mx_cache := <[domain := hosts]> (mx_cache s); log := log s |}).

(** The events of a log that reach the network. *)
Definition is_network (e : event) : bool :=
  match e with Sleep => false | _ => true end.

End Env.

(** ** domain_finder.py *)

Module DomainFinder.
Import PyStr Re Env.

Definition KNOWN_DOMAINS : list (string * string) :=
  [ ("google", "google.com"); ("microsoft", "microsoft.com");
    ("apple", "apple.com"); ("amazon", "amazon.com"); ("meta", "meta.com");
    ("facebook", "meta.com"); ("netflix", "netflix.com");
    ("salesforce", "salesforce.com"); ("oracle", "oracle.com");
    ("ibm", "ibm.com"); ("intel", "intel.com"); ("cisco", "cisco.com");
    ("adobe", "adobe.com"); ("spotify", "spotify.com"); ("uber", "uber.com");
    ("airbnb", "airbnb.com"); ("linkedin", "linkedin.com");
    ("twitter", "x.com"); ("stripe", "stripe.com");
    ("shopify", "shopify.com"); ("slack", "slack.com"); ("zoom", "zoom.us");
    ("dropbox", "dropbox.com"); ("hubspot", "hubspot.com");
    ("mailchimp", "mailchimp.com"); ("twilio", "twilio.com");
    ("datadog", "datadoghq.com"); ("snowflake", "snowflake.com");
    ("palantir", "palantir.com") ].

(** [r'\s+word$'] and [r'\s+word\.?$'] under [re.IGNORECASE]. *)
Definition word_suffix (w : string) (optional_dot : bool) : list item :=
  Plus is_space :: lit_ci w
    ++ (if optional_dot then [Opt (is_char_ci ".")] else []) ++ [Eol].

Definition suffixes : list (list item) :=
  [ word_suffix "inc" true; word_suffix "llc" true; word_suffix "ltd" true;
    word_suffix "corp" true;
    word_suffix "corporation" false; word_suffix "company" false;
    word_suffix "co" true; word_suffix "group" false;
    (* r'\s+holdings?$' *)
    Plus is_space :: lit_ci "holding" ++ [Opt (is_char_ci "s"); Eol];
    word_suffix "technologies" false; word_suffix "technology" false;
    word_suffix "solutions" false; word_suffix "services" false;
    word_suffix "international" false;
    word_suffix "worldwide" false; word_suffix "global" false;
    (* r',.*$' *)
    [Chr (is_char_ci ","); Star dot; Eol] ].

Definition normalize_company_name (company : string) : string :=
  let normalized := strip (lower company) in
  let normalized :=
    foldl (fun normalized suffix => sub_remove suffix normalized)
          normalized suffixes in
  strip normalized.

(** The first entry of the table whose key contains the normalized name
    or is contained in it. *)
Fixpoint known_domain (table : list (string * string)) (normalized : string)
    : option string :=
  match table with
  | [] => None
  | (key, domain) :: table' =>
      if contains key normalized || contains normalized key then Some domain
      else known_domain table' normalized
  end.

Definition guess_domain_from_name (company : string) : option string :=
  let normalized := normalize_company_name company in
  match known_domain KNOWN_DOMAINS normalized with
  | Some domain => Some domain
  | None =>
      (* re.sub(r'[^a-z0-9]', '', normalized) *)
      let simple := filter_str (fun c => is_az c || is_digit c) normalized in
      if nonempty simple then Some (simple +:+ ".com") else None
  end.

Section WithWorld.
Variable w : World.

Definition search_domain_duckduckgo (company : string) : M (option string) :=
  h ← history;
  _ ← emit (WebSearch company);
  mret (web_search w h company).

Definition verify_domain_exists (domain : string) : M bool :=
  h ← history;
  _ ← emit (DnsQuery "MX" domain);
  match dns_mx w h domain with
  | Some _ => mret true
  | None =>
      h ← history;
      _ ← emit (DnsQuery "A" domain);
      mret (dns_a w h domain)
  end.

(** [cache[cache_key] = value] under [if cache is not None]. *)
Definition cache_store (cache : option (gmap string string))
    (cache_key value : string) : option (gmap string string) :=
  match cache with
  | Some m => Some (<[cache_key := value]> m)
  | None => None
  end.

(** [cache[cache_key]] under [if cache and cache_key in cache]: [cache] is
    a non-empty dictionary that has the key. *)
Definition cache_hit (cache : option (gmap string string))
    (cache_key : string) : option string :=
  match cache with
  | Some m => if decide (m = ∅) then None else m !! cache_key
  | None => None
  end.

(** The dictionary [cache] is updated in place by the source; here the
    updated dictionary is returned next to the result. *)
Definition find_domain (company : string) (cache : option (gmap string string))
    : M (option string * option (gmap string string)) :=
  if negb (nonempty company) || negb (nonempty (strip company))
  then mret (None, cache)
  else
    let cache_key := normalize_company_name company in
    match cache_hit cache cache_key with
    | Some stored => mret (Some stored, cache)
    | None =>
        let guessed := guess_domain_from_name company in
        verified ←
          ((if truthy guessed
            then verify_domain_exists (default EmptyString guessed)
            else mret false) : M bool);
        if (verified : bool) then mret (guessed, cache_store cache cache_key
                                          (default EmptyString guessed))
        else
          searched ← search_domain_duckduckgo company;
          found ←
            ((if truthy searched
              then verify_domain_exists (default EmptyString searched)
              else mret false) : M bool);
          if (found : bool) then mret (searched, cache_store cache cache_key
                                          (default EmptyString searched))
          else if truthy guessed
          then mret (guessed, cache_store cache cache_key
                                (default EmptyString guessed))
          else mret (None, cache)
    end.

(** [find_domain] awaits three times: the DNS verification of the guess
    (l.152), the web search (l.159) and the DNS verification of what the
    search found (l.161).  While a call waits, the other calls of the run
    go on, and all of them share the dictionary.  The two definitions
    below cut the call at the web search.

    [find_domain_until_search] is the call up to the answer of the
    search: the call has returned ([inl], with the dictionary after it),
    or it is waiting for the search with its guess, which it could not
    verify ([inr], with the guess and the answer that is on its way). *)
Definition find_domain_until_search (company : string)
    (cache : option (gmap string string))
    : M ((option string * option (gmap string string))
         + (option string * option string)) :=
  if negb (nonempty company) || negb (nonempty (strip company))
  then mret (inl (None, cache))
  else
    let cache_key := normalize_company_name company in
    match cache_hit cache cache_key with
    | Some stored => mret (inl (Some stored, cache))
    | None =>
        let guessed := guess_domain_from_name company in
        verified ←
          ((if truthy guessed
            then verify_domain_exists (default EmptyString guessed)
            else mret false) : M bool);
        if (verified : bool)
        then mret (inl (guessed, cache_store cache cache_key
                                   (default EmptyString guessed)))
        else
          searched ← search_domain_duckduckgo company;
          mret (inr (guessed, searched))
    end.

(** [find_domain_after_search] is the rest of the call (l.160-173), run
    on the dictionary as it is when the answer of the search arrives. *)
Definition find_domain_after_search (company : string)
    (guessed searched : option string) (cache : option (gmap string string))
    : M (option string * option (gmap string string)) :=
  let cache_key := normalize_company_name company in
  found ←
    ((if truthy searched
      then verify_domain_exists (default EmptyString searched)
      else mret false) : M bool);
  if (found : bool) then mret (searched, cache_store cache cache_key
                                  (default EmptyString searched))
  else if truthy guessed
  then mret (guessed, cache_store cache cache_key
                        (default EmptyString guessed))
  else mret (None, cache).

End WithWorld.

(** A company name is blank when nothing is left of it after [strip]. *)
Definition blank (company : string) : bool := negb (nonempty (strip company)).

(** The domain cache in the course of a run.  The orchestrator hands its
    dictionary to [find_domain] and to nothing else, and it has several
    calls under way at a time.  A call reads the dictionary once, in its
    cache check (l.146), and goes on only for a company name that is not
    blank and that misses; from then on it is under way: it waits for DNS
    or for the web search while other calls run, and when it ends it has
    stored something under its [cache_key] (l.155, 164, 170), into the
    dictionary as it is by then, or nothing (l.173).

    A run is the dictionary together with the keys of the calls under
    way. *)
Record Run : Type := {
  dictionary : gmap string string;
  waiting : list string
}.

Inductive step : Run → Run → Prop :=
| step_start m keys company :
    blank company = false →
    cache_hit (Some m) (normalize_company_name company) = None →
    step {| dictionary := m; waiting := keys |}
         {| dictionary := m;
            waiting := normalize_company_name company :: keys |}
| step_store m keys1 key keys2 value :
    step {| dictionary := m; waiting := keys1 ++ key :: keys2 |}
         {| dictionary := <[key := value]> m; waiting := keys1 ++ keys2 |}
| step_return m keys1 key keys2 :
    step {| dictionary := m; waiting := keys1 ++ key :: keys2 |}
         {| dictionary := m; waiting := keys1 ++ keys2 |}.

(** A call that returns before it waits, for a blank name or on a cache
    hit, leaves the run as it is. *)
Inductive evolves : Run → Run → Prop :=
| evolves_refl r : evolves r r
| evolves_step r1 r2 r3 : evolves r1 r2 → step r2 r3 → evolves r1 r3.

(** A world without DNS answers and without search results. *)
Definition offline : World :=
  {| dns_mx := fun _ _ => None; dns_a := fun _ _ => false;
     web_search := fun _ _ => None;
     smtp := fun _ _ => scripted false [] [] true |}.

(** A world where acme.io is the only domain with DNS records, and where
    the search engine finds it for "Acme Inc" and nothing for any other
    query. *)
Definition acme_io : World :=
  {| dns_mx := fun _ name =>
       if String.eqb name "acme.io" then Some [(10%N, "mx.acme.io.")]
       else None;
     dns_a := fun _ _ => false;
     web_search := fun _ company =>
       if String.eqb company "Acme Inc" then Some "acme.io" else None;
     smtp := fun _ _ => scripted false [] [] true |}.

End DomainFinder.

(** ** email_verifier.py *)

Module EmailVerifier.
Import PyStr Re Env.

Inductive VerificationResult : Type := VALID | INVALID | CATCH_ALL | UNKNOWN.

#[global] Instance VerificationResult_eq_dec : EqDecision VerificationResult.
Proof. solve_decision. Defined.

(** The diagnostic text of a verification.  Text that the source copies
    from a server reply or from an exception is kept symbolically. *)
Inductive diagnostic : Type :=
| Literal (text : string)
| ReplyText (response : string)   (* [response.decode().strip()] *)
| ExceptionText.                  (* ["Connection timeout"] or [str(e)] *)

Record EmailVerification : Type := {
  email : string;
  result : VerificationResult;
  message : diagnostic
}.

Definition CRLF : string :=
  String (ascii_of_N 13) (String (ascii_of_N 10) EmptyString).

(** *** One SMTP conversation

    A connection knows its host and the session it is having, and counts
    the reads and the writes done so far.  A step of a conversation
    updates the connection and the run's state, and either returns a value
    or raises. *)
Record conn : Type := {
  host : string;
  script : Session;
  nread : nat;
  nwritten : nat
}.

Definition opened (mx_host : string) (session : Session) : conn :=
  {| host := mx_host; script := session; nread := 0; nwritten := 0 |}.

Definition after_read (c : conn) : conn :=
  {| host := host c; script := script c;
     nread := S (nread c); nwritten := nwritten c |}.

Definition after_write (c : conn) : conn :=
  {| host := host c; script := script c;
     nread := nread c; nwritten := S (nwritten c) |}.

Definition C (A : Type) : Type := conn → state → option A * conn * state.

#[global] Instance C_ret : MRet C := fun A (a : A) c s => (Some a, c, s).
#[global] Instance C_bind : MBind C := fun A B (k : A → C B) (m : C A) c s =>
  match m c s with
  | (Some a, c', s') => k a c' s'
  | (None, c', s') => (None, c', s')
  end.

Definition raise {A} : C A := fun c s => (None, c, s).

(** [try: m except: handler] *)
Definition catch {A} (m handler : C A) : C A := fun c s =>
  match m c s with
  | (Some a, c', s') => (Some a, c', s')
  | (None, c', s') => handler c' s'
  end.

(** [try: m finally: cleanup]: the cleanup always runs; when it raises,
    its exception replaces whatever [m] returned or raised. *)
Definition finally {A} (m : C A) (cleanup : C unit) : C A := fun c s =>
  match m c s with
  | (r, c', s') =>
      match cleanup c' s' with
      | (Some _, c'', s'') => (r, c'', s'')
      | (None, c'', s'') => (None, c'', s'')
      end
  end.

(** [await asyncio.wait_for(reader.readline(), timeout=timeout)] *)
Definition readline : C string := fun c s =>
  (reads (script c) (nread c), after_read c, logged (SmtpRecv (host c)) s).

(** [writer.write(data); await writer.drain()] *)
Definition send (data : string) : C unit := fun c s =>
  (if writes (script c) (nwritten c) then Some tt else None,
   after_write c, logged (SmtpSend (host c) data) s).

(** [writer.close(); await writer.wait_closed()] *)
Definition close : C unit := fun c s =>
  (if closes (script c) then Some tt else None, c,
   logged (SmtpClose (host c)) s).

(** [response[:3].decode() if len(response) >= 3 else ""].  The decoded
    text is kept as its bytes: it is only compared with ASCII literals. *)
Definition reply_code (response : string) : C string :=
  if (3 <=? String.length response)%nat then
    let code := take_str 3 response in
    if utf8_valid code then mret code else raise
  else mret EmptyString.

(** [response.decode()], for its exception. *)
Definition decode (response : string) : C unit :=
  if utf8_valid response then mret tt else raise.

Definition rcpt_to (address : string) : string :=
  "RCPT TO:<" +:+ address +:+ ">" +:+ CRLF.

Definition fake_email (domain : string) : string :=
  "nonexistent_user_test_12345@" +:+ domain.

(** The body of the [try] of [_check_catch_all]. *)
Definition catch_all_probe (domain : string) : C bool :=
  _ ← send (rcpt_to (fake_email domain));
  response ← readline;
  code ← reply_code response;
  mret (String.eqb code "250").

Definition _check_catch_all (domain : string) : C bool :=
  catch (catch_all_probe domain) (mret false).

(** [email.split('@')[1]] *)
Definition second_field (email : string) : C string :=
  match split_on "@" email with
  | _ :: domain :: _ => mret domain
  | _ => raise
  end.

Definition permanent_failure (code : string) : bool :=
  bool_decide (code ∈ ["550"; "551"; "552"; "553"; "554"]).

(** The part of [_check_smtp] under [# Analyze response]: what is done
    with the reply to the RCPT TO for the address. *)
Definition analyze_response (email response : string)
    : C EmailVerification :=
  code ← reply_code response;
  _ ← decode response;
  if String.eqb code "250" then
    domain ← second_field email;
    is_catch_all ← _check_catch_all domain;
    if (is_catch_all : bool)
    then mret {| email := email; result := CATCH_ALL;
                 message := Literal "Domain accepts all emails" |}
    else mret {| email := email; result := VALID;
                 message := Literal "Email exists" |}
  else if permanent_failure code
  then mret {| email := email; result := INVALID;
               message := ReplyText response |}
  else if String.eqb code "450" || String.eqb code "451"
  then mret {| email := email; result := UNKNOWN;
               message := Literal "Temporary error" |}
  else mret {| email := email; result := UNKNOWN;
               message := ReplyText response |}.

(** The body of the inner [try] of [_check_smtp]. *)
Definition dialogue (email : string) : C EmailVerification :=
  response ← readline;
  if negb (startswith "220" response)
  then mret {| email := email; result := UNKNOWN;
               message := Literal "Bad greeting" |}
  else
    _ ← send ("HELO verify.local" +:+ CRLF);
    _ ← readline;
    _ ← send ("MAIL FROM:<verify@verify.local>" +:+ CRLF);
    response ← readline;
    if negb (startswith "250" response)
    then mret {| email := email; result := UNKNOWN;
                 message := Literal "MAIL FROM rejected" |}
    else
      _ ← send (rcpt_to email);
      response ← readline;
      analyze_response email response.

(** The [finally] block of [_check_smtp]. *)
Definition teardown : C unit :=
  _ ← send ("QUIT" +:+ CRLF);
  close.

Section WithWorld.
Variable w : World.

(** Every exception, a timeout included, ends as UNKNOWN. *)
Definition _check_smtp (email mx_host : string) : M EmailVerification :=
  h ← history;
  _ ← emit (SmtpConnect mx_host);
  let session := smtp w h mx_host in
  if negb (connects session)
  then mret {| email := email; result := UNKNOWN; message := ExceptionText |}
  else fun s =>
    match finally (dialogue email) teardown (opened mx_host session) s with
    | (Some verification, _, s') => (verification, s')
    | (None, _, s') =>
        ({| email := email; result := UNKNOWN; message := ExceptionText |}, s')
    end.

(** Records are ordered as Python orders the tuples
    [(preference, exchange)]. *)
Definition mx_leb (a b : N * string) : bool :=
  (a.1 <? b.1) || ((a.1 =? b.1) && String.leb a.2 b.2).

Fixpoint insert_mx (r : N * string) (l : list (N * string))
    : list (N * string) :=
  match l with
  | [] => [r]
  | x :: l' => if mx_leb r x then r :: l else x :: insert_mx r l'
  end.

Definition sorted_mx (l : list (N * string)) : list (N * string) :=
  foldr insert_mx [] l.

Definition get_mx_records (domain : string) : M (list string) :=
  cache ← get_mx_cache;
  match cache !! domain with
  | Some hosts => mret hosts
  | None =>
      h ← history;
      _ ← emit (DnsQuery "MX" domain);
      match dns_mx w h domain with
      | Some records =>
          let mx_hosts :=
            sorted_mx ((fun r => (r.1, rstrip_dots r.2)) <$> records) in
          let hosts := snd <$> mx_hosts in
          _ ← set_mx_cache domain hosts;
          mret hosts
      | None => mret []
      end
  end.

Definition verify_email_mx_only (email : string) : M EmailVerification :=
  if negb (nonempty email) || negb (mem_char "@" email)
  then mret {| email := email; result := INVALID;
               message := Literal "Invalid email format" |}
  else
    let domain := after_last "@" email in
    mx_hosts ← get_mx_records domain;
    match mx_hosts with
    | _ :: _ =>
        mret {| email := email; result := VALID;
                message := Literal "Domain can receive email (MX verified)" |}
    | [] =>
        mret {| email := email; result := INVALID;
                message :=
                  Literal "No MX records - domain cannot receive email" |}
    end.

(** The loop over [mx_hosts[:2]]: the first result that is not UNKNOWN.
    [_check_smtp] raises nothing, so the [except Exception: continue] of
    the loop has nothing to catch. *)
Fixpoint try_hosts (email : string) (hosts : list string)
    : M (option EmailVerification) :=
  match hosts with
  | [] => mret None
  | mx_host :: rest =>
      verification ← _check_smtp email mx_host;
      if decide (result verification ≠ UNKNOWN) then mret (Some verification)
      else try_hosts email rest
  end.

Definition verify_email_smtp (email : string) : M EmailVerification :=
  if negb (nonempty email) || negb (mem_char "@" email)
  then mret {| email := email; result := INVALID;
               message := Literal "Invalid email format" |}
  else
    let domain := after_last "@" email in
    mx_hosts ← get_mx_records domain;
    match mx_hosts with
    | [] => mret {| email := email; result := UNKNOWN;
                    message := Literal "No MX records found" |}
    | _ :: _ =>
        conclusive ← try_hosts email (take 2 mx_hosts);
        match conclusive with
        | Some verification => mret verification
        | None => verify_email_mx_only email
        end
    end.

End WithWorld.

(** [r'^[a-zA-Z0-9._%+-]+@[a-zA-Z0-9.-]+\.[a-zA-Z]{2,}$'], tried at the
    start of the string by [re.match]. *)
Definition is_letter (c : ascii) : bool := is_az c || is_AZ c.
Definition local_char (c : ascii) : bool :=
  is_letter c || is_digit c || mem_char c "._%+-".
Definition domain_char (c : ascii) : bool :=
  is_letter c || is_digit c || mem_char c ".-".

Definition syntax_pattern : list item :=
  [ Plus local_char; Chr (is_char "@"); Plus domain_char; Chr (is_char ".");
    Chr is_letter; Plus is_letter; Eol ].

Definition quick_syntax_check (email : string) : bool :=
  matches syntax_pattern email.

(** Vocabulary for the statements about the probe.

    A session accepts the handshake when the connection opens, the
    greeting is a 220 line, HELO is written and answered, MAIL FROM is
    written and answered by a 250 line, and the RCPT TO for the address can
    be written. *)
Definition accepts_handshake (session : Session) : Prop :=
  connects session = true
  ∧ (∃ greeting,
       reads session 0 = Some greeting ∧ startswith "220" greeting = true)
  ∧ writes session 0 = true
  ∧ (∃ helo, reads session 1 = Some helo)
  ∧ writes session 1 = true
  ∧ (∃ mail_from,
       reads session 2 = Some mail_from ∧ startswith "250" mail_from = true)
  ∧ writes session 2 = true.

(** The connection when the reply to the first RCPT TO has been read:
    four reads and three writes were done. *)
Definition at_rcpt_reply (mx_host : string) (session : Session) : conn :=
  {| host := mx_host; script := session; nread := 4; nwritten := 3 |}.

(** The three characters a reply line begins with. *)
Definition code_of (line : string) : string := take_str 3 line.

(** The events of the handshake, newest first. *)
Definition handshake_log (mx_host email : string) : list event :=
  [ SmtpRecv mx_host; SmtpSend mx_host (rcpt_to email);
    SmtpRecv mx_host;
    SmtpSend mx_host ("MAIL FROM:<verify@verify.local>" +:+ CRLF);
    SmtpRecv mx_host; SmtpSend mx_host ("HELO verify.local" +:+ CRLF);
    SmtpRecv mx_host ].

(** What the catch-all check answers on a connection: the write goes
    through and the next read returns a line beginning with 250. *)
Definition catch_all_answer (c : conn) : bool :=
  writes (script c) (nwritten c)
  && match reads (script c) (nread c) with
     | Some second => String.eqb (code_of second) "250"
     | None => false
     end.

(** The ways the catch-all check can fail without an answer, on a
    session that accepted the first RCPT TO: the second RCPT TO cannot be
    written, reading its reply raises (a timeout, a lost connection), or
    the reply does not begin with decodable text. *)
Definition catch_all_check_fails (session : Session) : Prop :=
  writes session 3 = false
  ∨ reads session 4 = None
  ∨ ∃ second, reads session 4 = Some second
              ∧ (3 <=? String.length second)%nat = true
              ∧ utf8_valid (take_str 3 second) = false.

(** A session ends without error when QUIT, its [n]-th write, goes
    through and the connection closes: the [finally] block of
    [_check_smtp] raises nothing. *)
Definition ends_cleanly (session : Session) (n : nat) : bool :=
  writes session n && closes session.

(** Sample sessions and worlds on which the probe can be run.  In the
    worlds only acme.com has a mail exchanger. *)
Definition accept_everything : Session :=
  scripted true
    [ Some "220 mx.acme.com ESMTP"; Some "250 mx.acme.com";
      Some "250 2.1.0 Ok"; Some "250 2.1.5 Ok"; Some "250 2.1.5 Ok" ]
    [] true.

Definition unknown_user : Session :=
  scripted true
    [ Some "220 mx.acme.com ESMTP"; Some "250 mx.acme.com";
      Some "250 2.1.0 Ok"; Some "550 5.1.1 User unknown" ]
    [] true.

Definition silent_after_rcpt : Session :=
  scripted true
    [ Some "220 mx.acme.com ESMTP"; Some "250 mx.acme.com";
      Some "250 2.1.0 Ok"; Some "250 2.1.5 Ok"; None ]
    [] true.

(** The user is unknown, and the server says so in Latin-1: the byte 238
    (i circumflex) followed by an ASCII letter is not UTF-8. *)
Definition unknown_user_latin1 : Session :=
  scripted true
    [ Some "220 mx.acme.com ESMTP"; Some "250 mx.acme.com";
      Some "250 2.1.0 Ok";
      Some ("550 5.1.1 Bo" +:+ String (ascii_of_N 238) "te inconnue") ]
    [] true.

(** The user is unknown, and the server drops the connection after it
    has said so: QUIT cannot be written. *)
Definition unknown_user_then_reset : Session :=
  scripted true
    [ Some "220 mx.acme.com ESMTP"; Some "250 mx.acme.com";
      Some "250 2.1.0 Ok"; Some "550 5.1.1 User unknown" ]
    [ true; true; true; false ] true.

(** The connection is lost after the first RCPT TO was accepted: the
    second RCPT TO is still written, reading its reply raises, and QUIT
    cannot be written. *)
Definition lost_after_rcpt : Session :=
  scripted true
    [ Some "220 mx.acme.com ESMTP"; Some "250 mx.acme.com";
      Some "250 2.1.0 Ok"; Some "250 2.1.5 Ok"; None ]
    [ true; true; true; true; false ] true.

Definition acme_world (session_of : list event → Session) : World :=
  {| dns_mx := fun _ name =>
       if String.eqb name "acme.com" then Some [(10, "mx.acme.com.")]
       else None;
     dns_a := fun _ _ => false;
     web_search := fun _ _ => None;
     smtp := fun h _ => session_of h |}.

End EmailVerifier.

(** ** email_finder.py *)

Module EmailFinder.
Import PyStr Env EmailVerifier.

Record ContactResult : Type := {
  first_name : string;
  last_name : string;
  company : string;
  domain : option string;
  found_email : option string;
  verification_status : string;
  patterns_tried : nat
}.

(** [self.stats] *)
Record Stats : Type := {
  total : nat;
  found : nat;
  verified : nat;
  catch_all : nat;
  no_domain : nat;
  no_match : nat
}.

(** The attributes of a [LinkedInEmailFinder]. *)
Record Finder : Type := {
  concurrency : nat;
  verify : bool;
  domain_cache : gmap string string;
  stats : Stats
}.

Definition with_stats (self : Finder) (f : Stats → Stats) : Finder :=
  {| concurrency := concurrency self; verify := verify self;
     domain_cache := domain_cache self; stats := f (stats self) |}.

Definition with_domain_cache (self : Finder) (m : gmap string string)
    : Finder :=
  {| concurrency := concurrency self; verify := verify self;
     domain_cache := m; stats := stats self |}.

Definition count_no_domain (st : Stats) : Stats :=
  {| total := total st; found := found st; verified := verified st;
     catch_all := catch_all st; no_domain := S (no_domain st);
     no_match := no_match st |}.
Definition count_found (st : Stats) : Stats :=
  {| total := total st; found := S (found st); verified := verified st;
     catch_all := catch_all st; no_domain := no_domain st;
     no_match := no_match st |}.
Definition count_verified (st : Stats) : Stats :=
  {| total := total st; found := found st; verified := S (verified st);
     catch_all := catch_all st; no_domain := no_domain st;
     no_match := no_match st |}.
Definition count_catch_all (st : Stats) : Stats :=
  {| total := total st; found := found st; verified := verified st;
     catch_all := S (catch_all st); no_domain := no_domain st;
     no_match := no_match st |}.
Definition count_no_match (st : Stats) : Stats :=
  {| total := total st; found := found st; verified := verified st;
     catch_all := catch_all st; no_domain := no_domain st;
     no_match := S (no_match st) |}.

Section WithWorld.
Variable unidecode : string → string.
Variable w : World.

(** How the pattern loop ends early. *)
Inductive hit : Type :=
| Verified (email : string) (i : nat)
| CatchAll (i : nat).

(** [for i, email in enumerate(patterns[:8])], from index [i] on: [None]
    when the loop runs to its end. *)
Fixpoint try_patterns (i : nat) (candidates : list string) : M (option hit) :=
  match candidates with
  | [] => mret None
  | email :: rest =>
      if negb (quick_syntax_check email) then try_patterns (S i) rest
      else
        verification ← verify_email_smtp w email;
        match result verification with
        | VALID => mret (Some (Verified email i))
        | CATCH_ALL => mret (Some (CatchAll i))
        | _ =>
            _ ← emit Sleep;
            try_patterns (S i) rest
        end
  end.

(** Vocabulary for the statements about the loop: the candidates of a
    list are all passed over, each one skipped by the syntax check or
    probed with an outcome other than VALID and CATCH_ALL; the result is
    the state the run is in after them. *)
Fixpoint runs_inconclusive (candidates : list string) (s : state)
    : option state :=
  match candidates with
  | [] => Some s
  | email :: rest =>
      if negb (quick_syntax_check email) then runs_inconclusive rest s
      else
        let (verification, s') := verify_email_smtp w email s in
        match result verification with
        | VALID | CATCH_ALL => None
        | _ => runs_inconclusive rest (logged Sleep s')
        end
  end.

Definition find_email_for_contact (self : Finder)
    (first_name last_name company : option string)
    : M (ContactResult * Finder) :=
  if negb (truthy first_name) || negb (truthy last_name)
     || negb (truthy company)
  then mret ({| first_name := default EmptyString first_name;
                last_name := default EmptyString last_name;
                company := default EmptyString company;
                domain := None; found_email := None;
                verification_status := "missing_data";
                patterns_tried := 0 |}, self)
  else
    let first := default EmptyString first_name in
    let last := default EmptyString last_name in
    let comp := default EmptyString company in
    let answer (domain found_email : option string) (status : string)
               (tried : nat) :=
      {| first_name := first; last_name := last; company := comp;
         domain := domain; found_email := found_email;
         verification_status := status; patterns_tried := tried |} in
    '(domain, cache) ←
      DomainFinder.find_domain w comp (Some (domain_cache self));
    let self := with_domain_cache self (default (domain_cache self) cache) in
    if negb (truthy domain)
    then mret (answer None None "no_domain" 0%nat,
               with_stats self count_no_domain)
    else
      let patterns :=
        PatternGenerator.generate_email_patterns unidecode
          first_name last_name (default EmptyString domain) in
      match patterns with
      | [] => mret (answer domain None "no_patterns" 0%nat, self)
      | first_pattern :: _ =>
          if negb (verify self)
          then mret (answer domain (Some first_pattern) "unverified" 1%nat,
                     with_stats self count_found)
          else
            outcome ← try_patterns 0 (take 8 patterns);
            match outcome with
            | Some (Verified email i) =>
                mret (answer domain (Some email) "verified" (i + 1)%nat,
                      with_stats self (count_found ∘ count_verified))
            | Some (CatchAll i) =>
                mret (answer domain (Some first_pattern) "catch_all"
                             (i + 1)%nat,
                      with_stats self (count_found ∘ count_catch_all))
            | None =>
                mret (answer domain None "not_found"
                             (length (take 8 patterns)),
                      with_stats self count_no_match)
            end
      end.

End WithWorld.

(** A sample run: the first connection of the run meets a server that
    rejects the recipient, every later one a server that accepts
    everything. *)
Definition is_connect (e : event) : bool :=
  match e with SmtpConnect _ => true | _ => false end.

Definition second_try_accepts (h : list event) : Session :=
  if existsb is_connect h then accept_everything else unknown_user.

Definition new_finder : Finder :=
  {| concurrency := 3; verify := true; domain_cache := ∅;
     stats := {| total := 0; found := 0; verified := 0; catch_all := 0;
                 no_domain := 0; no_match := 0 |} |}.

End EmailFinder.

(** ** Vocabulary for traces *)

Module Trace.
Import PyStr Env EmailVerifier.

(** The events of a conversation with one host. *)
Definition session_event (mx_host : string) (e : event) : bool :=
  match e with
  | SmtpSend h _ | SmtpRecv h | SmtpClose h => String.eqb h mx_host
  | _ => false
  end.

(** [s'] comes from [s] by adding events of a class to the log and
    nothing else. *)
Definition extends (P : event → bool) (s s' : state) : Prop :=
  mx_cache s' = mx_cache s
  ∧ ∃ es, log s' = es ++ log s ∧ forallb P es = true.

(** A step of a conversation is steady when it keeps the host and the
    script of the connection and only adds events of that conversation
    to the log. *)
Definition steady {A} (m : C A) : Prop :=
  ∀ c s, host (m c s).1.2 = host c
         ∧ script (m c s).1.2 = script c
         ∧ extends (session_event (host c)) s (m c s).2.

(** The number of connections a log records. *)
Fixpoint connections (l : list event) : nat :=
  match l with
  | [] => 0
  | SmtpConnect _ :: l' => S (connections l')
  | _ :: l' => connections l'
  end.

End Trace.

(** ** Vocabulary for the candidates *)

Module Candidates.
Import PyStr Re EmailVerifier.

(** The characters of a generated local part. *)
Definition pattern_char (c : ascii) : bool := is_az c || mem_char c "._-".

(** The part of [syntax_pattern] after the [@]. *)
Definition domain_pattern : list item :=
  [ Plus domain_char; Chr (is_char "."); Chr is_letter; Plus is_letter; Eol ].

End Candidates.

(** * Properties *)

(** ** Strings *)

Module PyStrFacts.
Import PyStr.

Lemma all_str_impl (p q : ascii → bool) s :
  (∀ c, p c = true → q c = true) → all_str p s = true → all_str q s = true.
Proof.
  intros Hpq. induction s as [|c s IH]; simpl; [done|].
  intros [Hc Hs]%andb_prop. rewrite (Hpq _ Hc). simpl. auto.
Qed.

Lemma map_str_id (p : ascii → bool) (f : ascii → ascii) s :
  (∀ c, p c = true → f c = c) → all_str p s = true → map_str f s = s.
Proof.
  intros Hf. induction s as [|c s IH]; simpl; [done|].
  intros [Hc Hs]%andb_prop. by rewrite (Hf _ Hc), IH.
Qed.

Lemma filter_str_id (p : ascii → bool) s :
  all_str p s = true → filter_str p s = s.
Proof.
  induction s as [|c s IH]; simpl; [done|].
  intros [Hc Hs]%andb_prop. by rewrite Hc, IH.
Qed.

Lemma all_str_filter (p : ascii → bool) s : all_str p (filter_str p s) = true.
Proof.
  induction s as [|c s IH]; simpl; [done|].
  destruct (p c) eqn:Hc; simpl; [by rewrite Hc|done].
Qed.

Lemma all_str_filter_keeps (p q : ascii → bool) s :
  all_str p s = true → all_str p (filter_str q s) = true.
Proof.
  induction s as [|c s IH]; simpl; [done|].
  intros [Hc Hs]%andb_prop. destruct (q c); simpl; [rewrite Hc|]; auto.
Qed.

Lemma all_str_map (p q : ascii → bool) (f : ascii → ascii) s :
  (∀ c, p c = true → q (f c) = true) →
  all_str p s = true → all_str q (map_str f s) = true.
Proof.
  intros Hf. induction s as [|c s IH]; simpl; [done|].
  intros [Hc Hs]%andb_prop. rewrite (Hf _ Hc). simpl. auto.
Qed.

Lemma all_str_lstrip (p : ascii → bool) s :
  all_str p s = true → all_str p (lstrip s) = true.
Proof.
  induction s as [|c s IH]; simpl; [done|].
  intros H. destruct (is_space c); [|done].
  apply andb_prop in H as [_ Hs]. auto.
Qed.

Lemma all_str_rstrip (p : ascii → bool) s :
  all_str p s = true → all_str p (rstrip s) = true.
Proof.
  induction s as [|c s IH]; simpl; [done|].
  intros [Hc Hs]%andb_prop. specialize (IH Hs).
  destruct (rstrip s) as [|c' r].
  - destruct (is_space c); simpl; [done|by rewrite Hc].
  - change (all_str p (String c (String c' r)))
      with (p c && all_str p (String c' r)). by rewrite Hc.
Qed.

Lemma all_str_strip (p : ascii → bool) s :
  all_str p s = true → all_str p (strip s) = true.
Proof. intros H. by apply all_str_rstrip, all_str_lstrip. Qed.

Lemma rstrip_idem s : rstrip (rstrip s) = rstrip s.
Proof.
  induction s as [|c s IH]; simpl; [done|].
  destruct (rstrip s) as [|c' r] eqn:Hr.
  - destruct (is_space c) eqn:Hc; simpl; [done|by rewrite Hc].
  - change (rstrip (String c (String c' r)))
      with (match rstrip (String c' r) with
            | EmptyString =>
                if is_space c then EmptyString else String c EmptyString
            | r' => String c r'
            end).
    by rewrite IH.
Qed.

(** A string that does not begin with a blank keeps its first character
    under [rstrip]. *)
Lemma rstrip_head c s :
  is_space c = false → ∃ r, rstrip (String c s) = String c r.
Proof.
  intros Hc. simpl. destruct (rstrip s); rewrite ?Hc; eauto.
Qed.

Lemma lstrip_head s :
  lstrip s = EmptyString ∨ ∃ c r, lstrip s = String c r ∧ is_space c = false.
Proof.
  induction s as [|c s IH]; simpl; [by left|].
  destruct (is_space c) eqn:Hc; [done|]. right. eauto.
Qed.

Lemma strip_idem s : strip (strip s) = strip s.
Proof.
  unfold strip. destruct (lstrip_head s) as [->|(c & r & -> & Hc)]; [done|].
  destruct (rstrip_head c r Hc) as [r' Hr]. rewrite Hr.
  change (lstrip (String c r')) with
    (if is_space c then lstrip r' else String c r').
  rewrite Hc, <- Hr. apply rstrip_idem.
Qed.

Lemma split_empty : split EmptyString = [].
Proof. done. Qed.

Lemma append_assoc (a b c : string) : (a +:+ b) +:+ c = a +:+ (b +:+ c).
Proof.
  induction a as [|x a IH]; [done|].
  change (String x ((a +:+ b) +:+ c) = String x (a +:+ (b +:+ c))).
  by rewrite IH.
Qed.

End PyStrFacts.

(** ** The pattern generator *)

Module PatternGeneratorFacts.
Import PyStr PyStrFacts PatternGenerator.

Ltac each_char c := destruct c as [[] [] [] [] [] [] [] []]; vm_compute; done.

Lemma name_char_lower_ascii c :
  is_ascii c = true → is_ascii (lower_char c) = true.
Proof. each_char c. Qed.

Lemma plain_of_replaced c :
  name_char c = true →
  plain_char (if Ascii.eqb c "-" then " "%char else c) = true.
Proof. each_char c. Qed.

Lemma ascii_of_replaced c :
  is_ascii c = true →
  is_ascii (if Ascii.eqb c "-" then " "%char else c) = true.
Proof. each_char c. Qed.

Lemma plain_lower c : plain_char c = true → lower_char c = c.
Proof. each_char c. Qed.

Lemma plain_name_char c : plain_char c = true → name_char c = true.
Proof. each_char c. Qed.

Lemma plain_not_hyphen c :
  plain_char c = true → (if Ascii.eqb c "-" then " "%char else c) = c.
Proof. each_char c. Qed.

Section WithUnidecode.
Variable unidecode : string → string.

Lemma normalize_name_missing :
  normalize_name unidecode None = EmptyString
  ∧ normalize_name unidecode (Some EmptyString) = EmptyString.
Proof. done. Qed.

(** What [normalize_name] returns when the name is not missing. *)
Lemma normalize_name_some c s :
  normalize_name unidecode (Some (String c s)) =
  strip (replace_char "-" " "
           (filter_str name_char (strip (lower (unidecode (String c s)))))).
Proof. done. Qed.

Lemma normalize_name_plain name :
  all_str plain_char (normalize_name unidecode name) = true.
Proof.
  destruct name as [[|c s]|]; [done| |done].
  rewrite normalize_name_some. apply all_str_strip.
  apply (all_str_map name_char); [apply plain_of_replaced|].
  apply all_str_filter.
Qed.

Lemma normalize_name_stripped name :
  strip (normalize_name unidecode name) = normalize_name unidecode name.
Proof.
  destruct name as [[|c s]|]; [done| |done].
  rewrite normalize_name_some. apply strip_idem.
Qed.

Lemma normalize_name_ascii name :
  (∀ s, all_str is_ascii (unidecode s) = true) →
  all_str is_ascii (normalize_name unidecode name) = true.
Proof.
  intros Hascii. destruct name as [[|c s]|]; [done| |done].
  rewrite normalize_name_some. apply all_str_strip.
  apply (all_str_map is_ascii); [apply ascii_of_replaced|].
  apply all_str_filter_keeps, all_str_strip.
  apply (all_str_map is_ascii); [apply name_char_lower_ascii|].
  apply Hascii.
Qed.

End WithUnidecode.

(** The sample transliteration returns ASCII text and leaves ASCII text
    alone, as [unidecode] does. *)
Lemma unidecode_sample_ascii s : all_str is_ascii (unidecode_sample s) = true.
Proof. apply all_str_filter. Qed.

Lemma unidecode_sample_fixes_ascii s :
  all_str is_ascii s = true → unidecode_sample s = s.
Proof.
  intros H. unfold unidecode_sample.
  rewrite (map_str_id is_ascii); [by apply filter_str_id| |done].
  intros c. each_char c.
Qed.

End PatternGeneratorFacts.

Module PatternGeneratorSpec.
Import PyStr PyStrFacts PatternGenerator PatternGeneratorFacts.

Lemma split_tokens_nonempty s : Forall (fun w => nonempty w = true) (split s).
Proof.
  induction s as [|c s IH]; [constructor|].
  change (split (String c s)) with
    (if is_space c then split s
     else match s with
          | EmptyString => [String c EmptyString]
          | String c' _ =>
              if is_space c' then String c EmptyString :: split s
              else match split s with
                   | w :: ws => String c w :: ws
                   | [] => [String c EmptyString]
                   end
          end).
  destruct (is_space c); [done|].
  destruct s as [|c' s']; [by repeat constructor|].
  destruct (is_space c'); [by constructor|].
  destruct (split (String c' s')) as [|w ws]; [by repeat constructor|].
  inversion IH; subst. by constructor.
Qed.

(** C2.  With [f] the first token of the normalized first name, [l] the
    last token of the normalized last name, [fi] and [li] their first
    characters: when [f], [l] and the domain are all non-empty the
    generator returns exactly the sixteen addresses
    f.l, fl, fi+l, f_l, f, l, f+li, fi.l, l.f, lf, l+fi, fi+li, f-l, l-f,
    fi_l, f.li at the domain, in that order, and otherwise the empty list;
    for ("John", "Smith", "acme.com") the element at index 0 is
    john.smith@acme.com (the transliteration leaving these two ASCII names
    as they are). *)
Theorem generate_email_patterns_canonical
    (unidecode : string → string) (first_name last_name : option string)
    (domain : string) :
  unidecode "John" = "John" → unidecode "Smith" = "Smith" →
  let f := first_token (split (normalize_name unidecode first_name)) in
  let l := last_token (split (normalize_name unidecode last_name)) in
  let fi := initial f in
  let li := initial l in
  let at_domain (local_part : string) := local_part +:+ "@" +:+ domain in
  generate_email_patterns unidecode first_name last_name domain =
    (if nonempty f && nonempty l && nonempty domain then
       [ at_domain (f +:+ "." +:+ l);
         at_domain (f +:+ l);
         at_domain (fi +:+ l);
         at_domain (f +:+ "_" +:+ l);
         at_domain f;
         at_domain l;
         at_domain (f +:+ li);
         at_domain (fi +:+ "." +:+ l);
         at_domain (l +:+ "." +:+ f);
         at_domain (l +:+ f);
         at_domain (l +:+ fi);
         at_domain (fi +:+ li);
         at_domain (f +:+ "-" +:+ l);
         at_domain (l +:+ "-" +:+ f);
         at_domain (fi +:+ "_" +:+ l);
         at_domain (f +:+ "." +:+ li) ]
     else [])
  ∧ generate_email_patterns unidecode (Some "John") (Some "Smith") "acme.com"
      !! 0%nat = Some "john.smith@acme.com".
Proof.
  intros HJohn HSmith. split.
  - unfold generate_email_patterns.
    destruct (normalize_name unidecode first_name) as [|c1 s1].
    { by rewrite split_empty. }
    destruct (normalize_name unidecode last_name) as [|c2 s2].
    { rewrite split_empty. simpl. by rewrite andb_false_r. }
    generalize (first_token (split (String c1 s1))).
    generalize (last_token (split (String c2 s2))).
    intros l f. destruct domain as [|d ds].
    { simpl. by rewrite !andb_false_r. }
    destruct f as [|fi f'], l as [|li l']; done.
  - unfold generate_email_patterns, normalize_name. simpl.
    rewrite HJohn, HSmith. reflexivity.
Qed.

Lemma generate_email_patterns_canonical_witness :
  generate_email_patterns unidecode_sample
    (Some "Mary Jane") (Some "Smith-Jones") "acme.com"
  = (fun local_part => local_part +:+ "@acme.com") <$>
    [ "mary.jones"; "maryjones"; "mjones"; "mary_jones"; "mary"; "jones";
      "maryj"; "m.jones"; "jones.mary"; "jonesmary"; "jonesm"; "mj";
      "mary-jones"; "jones-mary"; "m_jones"; "mary.j" ]
  ∧ generate_email_patterns unidecode_sample
      (Some "John") (Some "Smith") "acme.com" !! 0%nat
    = Some "john.smith@acme.com".
Proof.
  destruct (generate_email_patterns_canonical unidecode_sample
              (Some "Mary Jane") (Some "Smith-Jones") "acme.com")
    as [Hlist Hfirst]; [reflexivity|reflexivity|].
  split; [|exact Hfirst]. rewrite Hlist. reflexivity.
Defined.

(** C8, as the code has it.  The extended generator returns the canonical
    list unchanged as a prefix.  When the two name tokens [f], [l] and the
    domain are non-empty it appends, for each of the suffixes 1, 2, 01, 02
    in turn, the THREE addresses f.l+suffix, fl+suffix and fi+l+suffix
    (twelve in all), and then, when the normalized first name has a second
    token [m], exactly the two addresses f.mi.l and f+mi+l with [mi] the
    first character of [m].  Otherwise it appends nothing. *)
Theorem generate_email_patterns_extended_shape
    (unidecode : string → string) (first_name last_name : option string)
    (domain : string) :
  let first_parts := split (normalize_name unidecode first_name) in
  let f := first_token first_parts in
  let l := last_token (split (normalize_name unidecode last_name)) in
  let fi := initial f in
  let at_domain (local_part : string) := local_part +:+ "@" +:+ domain in
  generate_email_patterns_extended unidecode first_name last_name domain =
    generate_email_patterns unidecode first_name last_name domain ++
    (if nonempty f && nonempty l && nonempty domain then
       [ at_domain (f +:+ "." +:+ l +:+ "1");
         at_domain (f +:+ l +:+ "1");
         at_domain (fi +:+ l +:+ "1");
         at_domain (f +:+ "." +:+ l +:+ "2");
         at_domain (f +:+ l +:+ "2");
         at_domain (fi +:+ l +:+ "2");
         at_domain (f +:+ "." +:+ l +:+ "01");
         at_domain (f +:+ l +:+ "01");
         at_domain (fi +:+ l +:+ "01");
         at_domain (f +:+ "." +:+ l +:+ "02");
         at_domain (f +:+ l +:+ "02");
         at_domain (fi +:+ l +:+ "02") ]
       ++ match first_parts with
          | _ :: m :: _ =>
              [ at_domain (f +:+ "." +:+ initial m +:+ "." +:+ l);
                at_domain (f +:+ initial m +:+ l) ]
          | _ => []
          end
     else []).
Proof.
  unfold generate_email_patterns_extended.
  destruct (normalize_name unidecode first_name) as [|c1 s1].
  { rewrite split_empty. simpl. by rewrite app_nil_r. }
  destruct (normalize_name unidecode last_name) as [|c2 s2].
  { rewrite split_empty. simpl. by rewrite andb_false_r, app_nil_r. }
  pose proof (split_tokens_nonempty (String c1 s1)) as Htok.
  revert Htok. generalize (split (String c1 s1)).
  generalize (last_token (split (String c2 s2))).
  intros l first_parts Htok. destruct domain as [|d ds].
  { simpl. by rewrite !andb_false_r, app_nil_r. }
  destruct (first_token first_parts) as [|fi f'] eqn:Hf;
    [simpl; by rewrite app_nil_r|].
  destruct l as [|li l']; [simpl; by rewrite app_nil_r|].
  cbn [nonempty negb orb andb]. f_equal.
  unfold numbered, with_middle. cbn [mbind list_bind mapM app initial].
  rewrite !append_assoc. do 12 f_equal.
  destruct first_parts as [|w0 [|m ws]]; [done..|].
  inversion Htok as [|? ? _ Hrest]; subst.
  inversion Hrest as [|? ? Hm _]; subst.
  destruct m as [|mi m']; [done|].
  cbn [initial]. by rewrite !append_assoc.
Qed.

(** C8, as stated, fails: for ("John", "Smith", "acme.com"), a name
    without a middle token, the extended list has 28 entries, not the
    16 + 4 * 2 of two base patterns, and it contains jsmith1@acme.com,
    built on the third base pattern. *)
Lemma extended_not_two_bases :
  let extended :=
    generate_email_patterns_extended unidecode_sample
      (Some "John") (Some "Smith") "acme.com" in
  let claimed :=
    generate_email_patterns unidecode_sample
      (Some "John") (Some "Smith") "acme.com"
    ++ numbered_two_bases "john" "smith" "acme.com" in
  extended ≠ claimed
  ∧ length extended = 28%nat ∧ length claimed = 24%nat
  ∧ "jsmith1@acme.com" ∈ extended ∧ "jsmith1@acme.com" ∉ claimed.
Proof.
  cbv zeta. split; [by vm_compute|]. split; [by vm_compute|].
  split; [by vm_compute|]. split.
  - apply list_elem_of_In. vm_compute. tauto.
  - intros Hin%list_elem_of_In. vm_compute in Hin.
    repeat destruct Hin as [Hin|Hin]; try discriminate Hin. exact Hin.
Qed.

End PatternGeneratorSpec.

(** ** Normalization *)

Module NormalizationSpec.
Import PyStr PyStrFacts PatternGenerator PatternGeneratorFacts DomainFinder.

(** C5, as the code has it.  Person-name normalization is idempotent,
    for a transliteration that returns ASCII text and leaves ASCII text
    unchanged (as [unidecode] does), and it maps a missing or empty name to
    the empty string; company-name normalization maps the empty string to
    the empty string.  (Company-name normalization itself is not
    idempotent.) *)
Theorem normalize_name_idempotent
    (unidecode : string → string) (name : option string) :
  (∀ s, all_str is_ascii (unidecode s) = true) →
  (∀ s, all_str is_ascii s = true → unidecode s = s) →
  normalize_name unidecode (Some (normalize_name unidecode name))
    = normalize_name unidecode name
  ∧ normalize_name unidecode None = EmptyString
  ∧ normalize_name unidecode (Some EmptyString) = EmptyString
  ∧ normalize_company_name EmptyString = EmptyString.
Proof.
  intros Hascii Hfix. split; [|done].
  pose proof (normalize_name_plain unidecode name) as Hplain.
  pose proof (normalize_name_stripped unidecode name) as Hstrip.
  pose proof (normalize_name_ascii unidecode name Hascii) as Hy.
  destruct (normalize_name unidecode name) as [|c y] eqn:Heq; [done|].
  rewrite normalize_name_some, (Hfix _ Hy).
  unfold lower. rewrite (map_str_id plain_char _ _ plain_lower Hplain).
  rewrite Hstrip.
  rewrite (filter_str_id name_char);
    [|by apply (all_str_impl plain_char), Hplain; apply plain_name_char].
  unfold replace_char.
  by rewrite (map_str_id plain_char _ _ plain_not_hyphen Hplain).
Qed.

Lemma normalize_name_idempotent_witness :
  normalize_name unidecode_sample
    (Some (normalize_name unidecode_sample (Some "  Jean-Luc  O'Neil 3rd ")))
    = normalize_name unidecode_sample (Some "  Jean-Luc  O'Neil 3rd ")
  ∧ normalize_name unidecode_sample (Some "  Jean-Luc  O'Neil 3rd ")
    = "jean luc  oneil rd".
Proof.
  split; [|reflexivity].
  apply (normalize_name_idempotent unidecode_sample
           (Some "  Jean-Luc  O'Neil 3rd ")
           unidecode_sample_ascii unidecode_sample_fixes_ascii).
Defined.

(** C5, as stated, fails for company names: each legal suffix is
    stripped once, in a fixed order, so a suffix that an earlier pattern
    would strip can be uncovered by a later one.  "Acme Inc LLC" becomes
    "acme inc", which becomes "acme". *)
Lemma company_normalization_not_idempotent :
  normalize_company_name "Acme Inc LLC" = "acme inc"
  ∧ normalize_company_name (normalize_company_name "Acme Inc LLC") = "acme"
  ∧ normalize_company_name (normalize_company_name "Acme Inc LLC")
      ≠ normalize_company_name "Acme Inc LLC".
Proof. split; [by vm_compute|]. split; by vm_compute. Qed.

End NormalizationSpec.

(** ** The domain resolver *)

Module DomainFinderSpec.
Import PyStr PyStrFacts Env DomainFinder.

Lemma lstrip_nonempty s : nonempty (lstrip s) = true → nonempty s = true.
Proof. by destruct s. Qed.

Lemma rstrip_nonempty s : nonempty (rstrip s) = true → nonempty s = true.
Proof. by destruct s. Qed.

Lemma not_blank_nonempty company :
  blank company = false → nonempty company = true.
Proof.
  unfold blank, strip. intros H%negb_false_iff.
  by apply lstrip_nonempty, rstrip_nonempty.
Qed.

Lemma cache_hit_lookup (m : gmap string string) key v :
  m !! key = Some v → cache_hit (Some m) key = Some v.
Proof.
  intros H. unfold cache_hit. destruct (decide (m = ∅)) as [->|]; [|done].
  by rewrite lookup_empty in H.
Qed.

Lemma cache_miss_lookup (m : gmap string string) key v k :
  m !! k = Some v → cache_hit (Some m) key = None → key ≠ k.
Proof.
  intros Hk Hmiss ->. by rewrite (cache_hit_lookup _ _ _ Hk) in Hmiss.
Qed.

Section WithWorld.
Variable w : World.

Lemma find_domain_hit company (m : gmap string string) stored s :
  blank company = false →
  m !! normalize_company_name company = Some stored →
  find_domain w company (Some m) s = ((Some stored, Some m), s).
Proof.
  intros Hblank Hm. unfold find_domain.
  rewrite (not_blank_nonempty _ Hblank).
  unfold blank in Hblank. apply negb_false_iff in Hblank. rewrite Hblank.
  cbn [negb orb]. by rewrite (cache_hit_lookup _ _ _ Hm).
Qed.

(** A call of [find_domain] never changes an entry the cache has. *)
Lemma find_domain_keeps company (m1 m2 : gmap string string) s k v :
  m1 !! k = Some v →
  (find_domain w company (Some m1) s).1.2 = Some m2 →
  m2 !! k = Some v.
Proof.
  intros Hk. unfold find_domain.
  destruct (negb (nonempty company) || negb (nonempty (strip company)));
    [by intros [= <-]|].
  destruct (cache_hit (Some m1) (normalize_company_name company)) eqn:Hhit;
    [by intros [= <-]|].
  pose proof (cache_miss_lookup _ _ _ _ Hk Hhit) as Hne.
  revert Hne. generalize (normalize_company_name company) as key.
  generalize (guess_domain_from_name company) as guessed.
  intros guessed key Hne.
  unfold mbind, M_bind, mret, M_ret, cache_store.
  destruct (truthy guessed).
  - destruct (verify_domain_exists w (default EmptyString guessed) s)
      as [[] s1].
    + intros [= <-]. by rewrite lookup_insert_ne.
    + destruct (search_domain_duckduckgo w company s1) as [searched s2].
      destruct (truthy searched).
      * destruct (verify_domain_exists w (default EmptyString searched) s2)
          as [[] s3]; intros [= <-]; by rewrite lookup_insert_ne.
      * intros [= <-]. by rewrite lookup_insert_ne.
  - destruct (search_domain_duckduckgo w company s) as [searched s2].
    destruct (truthy searched).
    + destruct (verify_domain_exists w (default EmptyString searched) s2)
        as [[] s3]; intros [= <-]; by rewrite ?lookup_insert_ne.
    + by intros [= <-].
Qed.

(** The two pieces of [find_domain], run one after the other on the same
    dictionary, are [find_domain]. *)
Lemma find_domain_cut company cache s :
  find_domain w company cache s
  = match find_domain_until_search w company cache s with
    | (inl answer, s1) => (answer, s1)
    | (inr (guessed, searched), s1) =>
        find_domain_after_search w company guessed searched cache s1
    end.
Proof.
  unfold find_domain, find_domain_until_search, find_domain_after_search.
  destruct (negb (nonempty company) || negb (nonempty (strip company)));
    [done|].
  destruct (cache_hit cache (normalize_company_name company)); [done|].
  generalize (normalize_company_name company) as key.
  generalize (guess_domain_from_name company) as guessed.
  intros guessed key. unfold mbind, M_bind, mret, M_ret.
  destruct (truthy guessed) eqn:Hguessed.
  - destruct (verify_domain_exists w (default EmptyString guessed) s)
      as [[] s1]; [done|].
    destruct (search_domain_duckduckgo w company s1) as [searched s2].
    by rewrite Hguessed.
  - destruct (search_domain_duckduckgo w company s) as [searched s2].
    by rewrite Hguessed.
Qed.

(** A whole call of [find_domain] is a piece of a run: it starts and
    ends with nothing in between, whatever else is under way. *)
Lemma find_domain_evolves company (m1 m2 : gmap string string) keys s :
  (find_domain w company (Some m1) s).1.2 = Some m2 →
  evolves {| dictionary := m1; waiting := keys |}
          {| dictionary := m2; waiting := keys |}.
Proof.
  unfold find_domain.
  destruct (negb (nonempty company) || negb (nonempty (strip company)))
    eqn:Hblank; [intros [= <-]; constructor|].
  apply orb_false_elim in Hblank as [_ Hblank].
  destruct (cache_hit (Some m1) (normalize_company_name company)) eqn:Hhit;
    [intros [= <-]; constructor|].
  pose proof (step_start m1 keys company Hblank Hhit) as Hstart.
  assert (∀ value,
            evolves {| dictionary := m1; waiting := keys |}
              {| dictionary := <[normalize_company_name company := value]> m1;
                 waiting := keys |})
    as Hstore.
  { intros value. eapply evolves_step; [eapply evolves_step|];
      [constructor|exact Hstart|].
    apply (step_store m1 [] _ keys). }
  assert (evolves {| dictionary := m1; waiting := keys |}
            {| dictionary := m1; waiting := keys |}) as Hreturn
    by constructor.
  clear Hstart. revert Hstore.
  generalize (normalize_company_name company) as key.
  generalize (guess_domain_from_name company) as guessed.
  intros guessed key Hstore.
  unfold mbind, M_bind, mret, M_ret, cache_store.
  destruct (truthy guessed).
  - destruct (verify_domain_exists w (default EmptyString guessed) s)
      as [[] s1]; [by intros [= <-]|].
    destruct (search_domain_duckduckgo w company s1) as [searched s2].
    destruct (truthy searched); [|by intros [= <-]].
    by destruct (verify_domain_exists w (default EmptyString searched) s2)
      as [[] s3]; intros [= <-].
  - destruct (search_domain_duckduckgo w company s) as [searched s2].
    destruct (truthy searched); [|by intros [= <-]].
    by destruct (verify_domain_exists w (default EmptyString searched) s2)
      as [[] s3]; intros [= <-].
Qed.

(** A call that waits for its search has started, and is under way. *)
Lemma find_domain_until_search_starts company (m : gmap string string)
    keys guessed searched s s1 :
  find_domain_until_search w company (Some m) s
    = (inr (guessed, searched), s1) →
  step {| dictionary := m; waiting := keys |}
       {| dictionary := m;
          waiting := normalize_company_name company :: keys |}.
Proof.
  unfold find_domain_until_search.
  destruct (negb (nonempty company) || negb (nonempty (strip company)))
    eqn:Hblank; [done|].
  apply orb_false_elim in Hblank as [_ Hblank].
  destruct (cache_hit (Some m) (normalize_company_name company)) eqn:Hhit;
    [done|].
  intros _. by constructor.
Qed.

(** When its search has answered, it ends: with a store under its key
    into the dictionary of that moment, or with nothing. *)
Lemma find_domain_after_search_ends company (m1 m2 : gmap string string)
    keys1 keys2 guessed searched s :
  (find_domain_after_search w company guessed searched (Some m1) s).1.2
    = Some m2 →
  step {| dictionary := m1;
          waiting := keys1 ++ normalize_company_name company :: keys2 |}
       {| dictionary := m2; waiting := keys1 ++ keys2 |}.
Proof.
  unfold find_domain_after_search, mbind, M_bind, mret, M_ret, cache_store.
  destruct (truthy searched).
  - destruct (verify_domain_exists w (default EmptyString searched) s)
      as [[] s3]; [intros [= <-]; constructor|].
    destruct (truthy guessed); intros [= <-]; constructor.
  - destruct (truthy guessed); intros [= <-]; constructor.
Qed.

End WithWorld.

(** In a run, an entry of the dictionary stays as long as no call under
    way has its key: none that is will store under it, and none that
    starts will go on past the cache check. *)
Lemma evolves_keeps (r r' : Run) k v :
  evolves r r' →
  dictionary r !! k = Some v → k ∉ waiting r →
  dictionary r' !! k = Some v ∧ k ∉ waiting r'.
Proof.
  induction 1 as [r|r1 r2 r3 _ IH Hstep]; [done|].
  intros Hk Hfree. destruct (IH Hk Hfree) as [Hk2 Hfree2]. clear IH.
  destruct Hstep as [m keys company _ Hmiss|m keys1 key keys2 value
                    |m keys1 key keys2]; cbn [dictionary waiting] in *.
  - split; [done|]. apply not_elem_of_cons. split; [|done].
    intros ->. by apply (cache_miss_lookup _ _ _ _ Hk2 Hmiss).
  - apply not_elem_of_app in Hfree2 as [H1 [Hne H2]%not_elem_of_cons].
    split; [by rewrite lookup_insert_ne|]. by apply not_elem_of_app.
  - apply not_elem_of_app in Hfree2 as [H1 [Hne H2]%not_elem_of_cons].
    split; [done|]. by apply not_elem_of_app.
Qed.

(** C7, as stated, fails.  The resolver itself stores a domain
    under the empty key: that is the normalized form of ", Inc".  A
    company name of three blanks has the same normalized form, so its key
    is in the cache, and yet the resolver returns nothing for it. *)
Lemma blank_name_ignores_the_cache :
  (find_domain offline ", Inc" (Some ∅) initial).1.2
    = Some {[ EmptyString := "google.com" ]}
  ∧ ({[ EmptyString := "google.com" ]} : gmap string string)
      !! normalize_company_name "   " = Some "google.com"
  ∧ (find_domain offline "   " (Some {[ EmptyString := "google.com" ]})
       initial).1.1 = None.
Proof.
  split; [|split]; vm_compute; reflexivity.
Qed.

(** C7, as the code has it.  For a company name that is not blank and whose
    normalized form is a key of the domain cache, the resolver returns the
    stored value, and neither the cache nor the rest of the state changes:
    nothing is added to the log, so there is no DNS query and no web
    search. *)
Theorem find_domain_cache_hit
    (w : World) (company : string) (m : gmap string string)
    (stored : string) (s : state) :
  blank company = false →
  m !! normalize_company_name company = Some stored →
  find_domain w company (Some m) s = ((Some stored, Some m), s)
  ∧ log (find_domain w company (Some m) s).2 = log s.
Proof.
  intros Hblank Hm. by rewrite (find_domain_hit w _ _ _ s Hblank Hm).
Qed.

Lemma find_domain_cache_hit_witness :
  find_domain offline "ACME Inc." (Some {[ "acme" := "acme.io" ]}) initial
    = ((Some "acme.io", Some {[ "acme" := "acme.io" ]}), initial)
  ∧ log (find_domain offline "ACME Inc."
           (Some {[ "acme" := "acme.io" ]}) initial).2 = [].
Proof.
  apply (find_domain_cache_hit offline "ACME Inc."
           {[ "acme" := "acme.io" ]} "acme.io" initial).
  - reflexivity.
  - vm_compute. reflexivity.
Defined.

(** C10, as stated, fails, in two ways.

    A blank name: in a world without DNS and search, ", Inc" resolves to
    the unverified guess google.com, stored under the empty key; a name
    of one blank has the same normalized form and resolves to nothing.

    A call that was under way: the call for "Acme Inc" misses the cache,
    fails to verify its guess acme.com and waits for the web search.
    Meanwhile the call for "Acme LLC", of the same normalized form, runs
    from start to end: neither its guess nor its search passes, and it
    stores the unverified guess acme.com.  Then the search of the first
    call answers acme.io, which passes DNS verification and is stored
    over the guess.  From then on "Acme" resolves to acme.io. *)
Lemma cached_guess_is_not_for_ever :
  ((find_domain offline ", Inc" (Some ∅) initial).1
     = (Some "google.com", Some {[ EmptyString := "google.com" ]})
   ∧ normalize_company_name " " = normalize_company_name ", Inc"
   ∧ (find_domain offline " " (Some {[ EmptyString := "google.com" ]})
        initial).1.1 = None)
  ∧ ∃ s1 s2 s3,
      find_domain_until_search acme_io "Acme Inc" (Some ∅) initial
        = (inr (Some "acme.com", Some "acme.io"), s1)
      ∧ find_domain acme_io "Acme LLC" (Some ∅) s1
        = ((Some "acme.com", Some {[ "acme" := "acme.com" ]}), s2)
      ∧ find_domain_after_search acme_io "Acme Inc"
          (Some "acme.com") (Some "acme.io")
          (Some {[ "acme" := "acme.com" ]}) s2
        = ((Some "acme.io", Some {[ "acme" := "acme.io" ]}), s3)
      ∧ normalize_company_name "Acme" = normalize_company_name "Acme LLC"
      ∧ (find_domain acme_io "Acme" (Some {[ "acme" := "acme.io" ]})
           s3).1.1 = Some "acme.io".
Proof.
  split.
  - split; [|split]; vm_compute; reflexivity.
  - eexists _, _, _.
    split; [vm_compute; reflexivity|].
    split; [vm_compute; reflexivity|].
    split; [vm_compute; reflexivity|].
    split; vm_compute; reflexivity.
Qed.

(** C10, as the code has it.  Take a company name that is not blank and
    misses the cache, with a guess [g] that fails DNS verification, and a
    web search whose candidate, if any, fails DNS verification too.
    - The resolver returns [g] and stores it in the cache under the
      normalized company name.  This holds of the call run in one piece,
      and of the call that waits for its search: when the search has
      answered, it stores [g] into the cache as it is by then.
    - Let the guess be stored into a cache at a moment when no other call
      for a name of this normalized form is under way.  Then however the
      run goes on, with calls one after the other or several at a time,
      every resolution of a company name, not blank, with the same
      normalized form returns [g] and leaves cache, state and log as they
      are: no DNS query, no web search. *)
Theorem find_domain_caches_unverified_guess
    (w : World) (company g : string) (m : gmap string string)
    (s s1 s2 : state) (searched : option string) :
  blank company = false →
  cache_hit (Some m) (normalize_company_name company) = None →
  guess_domain_from_name company = Some g →
  nonempty g = true →
  verify_domain_exists w g s = (false, s1) →
  search_domain_duckduckgo w company s1 = (searched, s2) →
  let unverified (s3 : state) :=
    ∀ d, searched = Some d → nonempty d = true →
         (verify_domain_exists w d s3).1 = false in
  let key := normalize_company_name company in
  (unverified s2 →
   (find_domain w company (Some m) s).1 = (Some g, Some (<[key := g]> m)))
  ∧ find_domain_until_search w company (Some m) s
    = (inr (Some g, searched), s2)
  ∧ (∀ (m1 : gmap string string) (s3 : state),
       unverified s3 →
       (find_domain_after_search w company (Some g) searched (Some m1) s3).1
       = (Some g, Some (<[key := g]> m1)))
  ∧ ∀ (m1 : gmap string string) (keys : list string) (later : Run)
      (company' : string) (s' : state),
      key ∉ keys →
      evolves {| dictionary := <[key := g]> m1; waiting := keys |} later →
      blank company' = false →
      normalize_company_name company' = key →
      find_domain w company' (Some (dictionary later)) s'
      = ((Some g, Some (dictionary later)), s').
Proof.
  intros Hblank Hmiss Hguess Hg Hverify Hsearch unverified key.
  assert (find_domain_until_search w company (Some m) s
          = (inr (Some g, searched), s2)) as Huntil.
  { unfold find_domain_until_search.
    rewrite (not_blank_nonempty _ Hblank).
    unfold blank in Hblank. apply negb_false_iff in Hblank. rewrite Hblank.
    cbn [negb orb]. rewrite Hmiss, Hguess. cbn [truthy default]. rewrite Hg.
    unfold mbind, M_bind, id. by rewrite Hverify, Hsearch. }
  assert (∀ (m1 : gmap string string) (s3 : state),
            unverified s3 →
            (find_domain_after_search w company (Some g) searched
               (Some m1) s3).1
            = (Some g, Some (<[key := g]> m1))) as Hafter.
  { intros m1 s3 Hfound.
    unfold find_domain_after_search, mbind, M_bind, mret, M_ret.
    cbn [truthy default]. rewrite Hg.
    destruct searched as [d|]; cbn [truthy default from_option]; [|done].
    unfold id. destruct (nonempty d) eqn:Hd; [|done].
    specialize (Hfound d eq_refl Hd).
    destruct (verify_domain_exists w d s3) as [found s4].
    simpl in Hfound. by subst found. }
  split; [|split; [done|split; [done|]]].
  - intros Hfound. rewrite find_domain_cut, Huntil. by apply Hafter.
  - intros m1 keys later company' s' Hfree Hev Hblank' Hkey.
    apply find_domain_hit; [done|]. rewrite Hkey.
    apply (evolves_keeps _ _ _ _ Hev); [apply lookup_insert_eq|done].
Qed.

Lemma find_domain_caches_unverified_guess_witness :
  (find_domain offline "Some Random Startup LLC" (Some ∅) initial).1
    = (Some "somerandomstartup.com",
       Some {[ "some random startup" := "somerandomstartup.com" ]})
  ∧ ∀ s', find_domain offline "some random startup, inc."
            (Some (<[ "other" := "other.com" ]>
                     {[ "some random startup" := "somerandomstartup.com" ]}))
            s'
          = ((Some "somerandomstartup.com",
              Some (<[ "other" := "other.com" ]>
                      {[ "some random startup"
                           := "somerandomstartup.com" ]})),
             s').
Proof.
  destruct (find_domain_caches_unverified_guess offline
              "Some Random Startup LLC" "somerandomstartup.com" ∅
              initial
              {| mx_cache := ∅;
                 log := [ DnsQuery "A" "somerandomstartup.com";
                          DnsQuery "MX" "somerandomstartup.com" ] |}
              {| mx_cache := ∅;
                 log := [ WebSearch "Some Random Startup LLC";
                          DnsQuery "A" "somerandomstartup.com";
                          DnsQuery "MX" "somerandomstartup.com" ] |}
              None)
    as (Hfirst & _ & _ & Hlater);
    [reflexivity|reflexivity|by vm_compute|reflexivity|reflexivity
    |reflexivity|].
  split.
  - rewrite Hfirst by discriminate. by vm_compute.
  - intros s'.
    refine (Hlater ∅ ["other"]
              {| dictionary :=
                   <[ "other" := "other.com" ]>
                     {[ "some random startup" := "somerandomstartup.com" ]};
                 waiting := [] |}
              "some random startup, inc." s' _ _ _ _).
    + replace (normalize_company_name "Some Random Startup LLC")
        with "some random startup" by (by vm_compute).
      intros [Heq|Hin]%elem_of_cons; [discriminate Heq|].
      by apply elem_of_nil in Hin.
    + replace (normalize_company_name "Some Random Startup LLC")
        with "some random startup" by (by vm_compute).
      rewrite insert_empty.
      eapply evolves_step; [constructor|].
      apply (step_store _ [] "other" [] "other.com").
    + reflexivity.
    + by vm_compute.
Defined.

End DomainFinderSpec.

(** ** The SMTP probe *)

Module EmailVerifierFacts.
Import PyStr PyStrFacts Env EmailVerifier.

Lemma run_readline {A} (k : string → C A) c s line :
  reads (script c) (nread c) = Some line →
  (readline ≫= k) c s = k line (after_read c) (logged (SmtpRecv (host c)) s).
Proof. intros H. unfold mbind, C_bind, readline. by rewrite H. Qed.

Lemma run_send {A} (k : unit → C A) data c s :
  writes (script c) (nwritten c) = true →
  (send data ≫= k) c s
  = k tt (after_write c) (logged (SmtpSend (host c) data) s).
Proof. intros H. unfold mbind, C_bind, send. by rewrite H. Qed.

Lemma run_readline_raises {A} (k : string → C A) c s :
  reads (script c) (nread c) = None →
  ((readline ≫= k) c s).1.1 = None.
Proof. intros H. unfold mbind, C_bind, readline. by rewrite H. Qed.

Lemma run_send_raises {A} (k : unit → C A) data c s :
  writes (script c) (nwritten c) = false →
  ((send data ≫= k) c s).1.1 = None.
Proof. intros H. unfold mbind, C_bind, send. by rewrite H. Qed.

Lemma split_on_plain dom :
  mem_char "@" dom = false → split_on "@" dom = [dom].
Proof.
  induction dom as [|c dom IH]; [done|]. simpl.
  intros [Hc Hdom]%orb_false_elim. rewrite Hc, (IH Hdom). done.
Qed.

Lemma split_on_address local dom :
  mem_char "@" local = false → mem_char "@" dom = false →
  split_on "@" (local +:+ "@" +:+ dom) = [local; dom].
Proof.
  intros Hlocal Hdom. induction local as [|c local IH].
  - change (split_on "@" (String "@" dom) = [EmptyString; dom]).
    simpl. by rewrite (split_on_plain _ Hdom).
  - simpl in Hlocal. apply orb_false_elim in Hlocal as [Hc Hlocal].
    change (split_on "@" (String c (local +:+ "@" +:+ dom))
            = [String c local; dom]).
    simpl. by rewrite Hc, (IH Hlocal).
Qed.

Lemma code_length line a b c :
  code_of line = String a (String b (String c EmptyString)) →
  (3 <=? String.length line)%nat = true.
Proof.
  unfold code_of. destruct line as [|x [|y [|z line]]]; done.
Qed.

Lemma dialogue_handshake email mx_host session s rcpt :
  accepts_handshake session →
  reads session 3 = Some rcpt →
  dialogue email (opened mx_host session) s
  = analyze_response email rcpt (at_rcpt_reply mx_host session)
      {| mx_cache := mx_cache s;
         log := handshake_log mx_host email ++ log s |}.
Proof.
  intros (_ & (greeting & Hr0 & Hg) & Hw0 & (helo & Hr1) & Hw1
          & (mail & Hr2 & Hm) & Hw2) Hr3.
  unfold dialogue.
  rewrite (run_readline _ _ _ greeting) by done. rewrite Hg. cbn [negb].
  rewrite run_send by done.
  rewrite (run_readline _ _ _ helo) by done.
  rewrite run_send by done.
  rewrite (run_readline _ _ _ mail) by done. rewrite Hm. cbn [negb].
  rewrite run_send by done.
  rewrite (run_readline _ _ _ rcpt) by done.
  done.
Qed.


Lemma reply_code_run line c s :
  ∃ o, reply_code line c s = (o, c, s)
       ∧ String.eqb (code_of line) "250"
         = match o with Some code => String.eqb code "250" | None => false end.
Proof.
  unfold reply_code, code_of.
  destruct (3 <=? String.length line)%nat eqn:Hlen.
  - destruct (utf8_valid (take_str 3 line)) eqn:Hvalid;
      eexists; (split; [done|]); [done|].
    apply String.eqb_neq. intros Heq. by rewrite Heq in Hvalid.
  - eexists; split; [done|].
    apply String.eqb_neq. intros Heq.
    destruct line as [|x [|y [|z line]]]; done.
Qed.

Lemma check_catch_all_run domain c s :
  ∃ c' s',
    _check_catch_all domain c s = (Some (catch_all_answer c), c', s')
    ∧ host c' = host c ∧ script c' = script c
    ∧ nwritten c' = S (nwritten c)
    ∧ SmtpSend (host c) (rcpt_to (fake_email domain)) ∈ log s'
    ∧ ∀ e, e ∈ log s → e ∈ log s'.
Proof.
  unfold _check_catch_all, catch, catch_all_probe, catch_all_answer.
  unfold mbind at 1. unfold C_bind at 1. unfold send.
  destruct (writes (script c) (nwritten c)) eqn:Hw; cbn [andb].
  2:{ eexists _, _. split; [reflexivity|]. cbn. set_solver. }
  unfold mbind at 1. unfold C_bind at 1. unfold readline.
  cbn [nread after_write script host].
  destruct (reads (script c) (nread c)) as [second|] eqn:Hr.
  2:{ eexists _, _. split; [reflexivity|]. cbn. set_solver. }
  unfold mbind, C_bind.
  destruct (reply_code_run second (after_read (after_write c))
              (logged (SmtpRecv (host c))
                 (logged (SmtpSend (host c)
                            (rcpt_to (fake_email domain))) s)))
    as (o & -> & ->).
  destruct o as [code|]; cbn;
    eexists _, _; (split; [reflexivity|]); cbn; set_solver.
Qed.


Lemma reply_code_known line a b c cn s :
  code_of line = String a (String b (String c EmptyString)) →
  utf8_valid (String a (String b (String c EmptyString))) = true →
  reply_code line cn s
  = (Some (String a (String b (String c EmptyString))), cn, s).
Proof.
  intros Hcode Hvalid. unfold reply_code.
  rewrite (code_length _ _ _ _ Hcode). unfold code_of in Hcode.
  by rewrite Hcode, Hvalid.
Qed.

Lemma analyze_accepted local dom rcpt c s :
  mem_char "@" local = false → mem_char "@" dom = false →
  code_of rcpt = "250" → utf8_valid rcpt = true →
  ∃ v c' s',
    analyze_response (local +:+ "@" +:+ dom) rcpt c s = (Some v, c', s')
    ∧ result v = (if catch_all_answer c then CATCH_ALL else VALID)
    ∧ host c' = host c ∧ script c' = script c
    ∧ nwritten c' = S (nwritten c)
    ∧ SmtpSend (host c) (rcpt_to (fake_email dom)) ∈ log s'
    ∧ ∀ e, e ∈ log s → e ∈ log s'.
Proof.
  intros Hlocal Hdom Hcode Hvalid. unfold analyze_response.
  unfold mbind at 1. unfold C_bind at 1.
  rewrite (reply_code_known _ _ _ _ _ _ Hcode) by done.
  unfold mbind at 1. unfold C_bind at 1. unfold decode. rewrite Hvalid.
  cbn [mret C_ret String.eqb Ascii.eqb Bool.eqb andb].
  unfold second_field. rewrite (split_on_address _ _ Hlocal Hdom).
  unfold mbind, C_bind. cbn [mret C_ret].
  destruct (check_catch_all_run dom c s)
    as (c' & s' & -> & Hhost & Hscript & Hn & Hsent & Hlog).
  destruct (catch_all_answer c); eexists _, c', s'; done.
Qed.

Lemma analyze_rejected email rcpt c s :
  utf8_valid rcpt = true →
  (code_of rcpt ∈ ["550"; "551"; "552"; "553"; "554"] →
   ∃ v, analyze_response email rcpt c s = (Some v, c, s)
        ∧ result v = INVALID)
  ∧ (code_of rcpt ∈ ["450"; "451"] →
     ∃ v, analyze_response email rcpt c s = (Some v, c, s)
          ∧ result v = UNKNOWN).
Proof.
  intros Hvalid. unfold analyze_response, mbind, C_bind, decode.
  split; intros Hcode; set_unfold in Hcode;
    repeat destruct Hcode as [Hcode|Hcode]; try done;
    rewrite (reply_code_known _ _ _ _ _ _ Hcode) by done;
    rewrite Hvalid; cbn; eauto.
Qed.

Lemma analyze_undecodable email rcpt a b c cn s :
  code_of rcpt = String a (String b (String c EmptyString)) →
  utf8_valid (String a (String b (String c EmptyString))) = true →
  utf8_valid rcpt = false →
  analyze_response email rcpt cn s = (None, cn, s).
Proof.
  intros Hcode Hvalid Hbad. unfold analyze_response.
  unfold mbind at 1. unfold C_bind at 1.
  rewrite (reply_code_known _ _ _ _ _ _ Hcode) by done.
  unfold mbind at 1. unfold C_bind at 1. unfold decode. by rewrite Hbad.
Qed.

(** What [_check_smtp] makes of its conversation: the result of the
    conversation when the [finally] block raises nothing, UNKNOWN when
    the conversation or that block raises.  The log keeps the events of
    the conversation either way. *)
Lemma check_smtp_outcome w email mx_host s r c' s' :
  connects (smtp w (log s) mx_host) = true →
  dialogue email (opened mx_host (smtp w (log s) mx_host))
    (logged (SmtpConnect mx_host) s) = (r, c', s') →
  script c' = smtp w (log s) mx_host →
  result (_check_smtp w email mx_host s).1
  = match r with
    | Some v =>
        if ends_cleanly (smtp w (log s) mx_host) (nwritten c')
        then result v else UNKNOWN
    | None => UNKNOWN
    end
  ∧ ∀ e, e ∈ log s' → e ∈ log (_check_smtp w email mx_host s).2.
Proof.
  intros Hconn Hdial Hscript.
  unfold _check_smtp, mbind, M_bind, history, emit. rewrite Hconn.
  cbn [negb]. unfold finally. rewrite Hdial.
  unfold teardown, mbind, C_bind, send, close, ends_cleanly.
  rewrite Hscript.
  destruct (writes (smtp w (log s) mx_host) (nwritten c')); cbn [andb].
  - cbn [script after_write]. rewrite Hscript.
    destruct (closes (smtp w (log s) mx_host)); destruct r as [v|];
      (split; [done|]); intros e He; cbn;
      by apply list_elem_of_further, list_elem_of_further.
  - destruct r as [v|]; (split; [done|]); intros e He; cbn;
      by apply list_elem_of_further.
Qed.

End EmailVerifierFacts.

Module EmailVerifierSpec.
Import PyStr PyStrFacts Env EmailVerifier EmailVerifierFacts.







End EmailVerifierSpec.

(** ** The guards of the probe *)

Module ProbeGuardsSpec.
Import PyStr PyStrFacts Env EmailVerifier EmailVerifierFacts.
Import DomainFinder EmailFinder.

Lemma mem_char_nonempty c s : mem_char c s = true → nonempty s = true.
Proof. by destruct s. Qed.

(** A pattern [x+a...] does not match a string without the character
    [a]. *)
Lemma plus_then_char_needs_char p a rest s :
  mem_char a s = false →
  Re.match_len (Re.Plus p :: Re.Chr (Re.is_char a) :: rest) s = None.
Proof.
  induction s as [|c s IH]; [done|].
  intros [Hc Hs]%orb_false_elim. specialize (IH Hs).
  simpl in *. rewrite IH. destruct (p c); [|done].
  destruct s as [|c' s']; [done|].
  apply orb_false_elim in Hs as [Hc' _].
  unfold Re.is_char. by rewrite Hc'.
Qed.

(** C3, as the code has it.  For an address with an [@]: when the lookup
    of the mail exchangers of its domain yields no records, the probe
    returns UNKNOWN ("No MX records found") at once; the state is the one
    the lookup left, so no SMTP connection is opened and the MX-only
    heuristic is not run.  The heuristic itself answers VALID when the
    lookup yields a host and INVALID when it yields none, and does nothing
    but that lookup: it never asks for an A record. *)
Theorem no_mx_records_gives_unknown (w : World) (address : string) (s : state) :
  mem_char "@" address = true →
  let lookup := get_mx_records w (after_last "@" address) s in
  (lookup.1 = [] →
   verify_email_smtp w address s
   = ({| email := address; result := UNKNOWN;
         message := Literal "No MX records found" |}, lookup.2))
  ∧ result (verify_email_mx_only w address s).1
    = (if bool_decide (lookup.1 = []) then INVALID else VALID)
  ∧ (verify_email_mx_only w address s).2 = lookup.2.
Proof.
  intros Hat. cbv zeta.
  unfold verify_email_smtp, verify_email_mx_only.
  rewrite Hat, (mem_char_nonempty _ _ Hat). cbn [negb orb].
  unfold mbind, M_bind.
  destruct (get_mx_records w (after_last "@" address) s) as [hosts s'].
  cbn [fst snd]. split; [by intros ->|].
  by destruct hosts.
Qed.

Lemma no_mx_records_gives_unknown_witness :
  verify_email_smtp offline "bob@example.com" initial
  = ({| email := "bob@example.com"; result := UNKNOWN;
        message := Literal "No MX records found" |},
     {| mx_cache := ∅; log := [DnsQuery "MX" "example.com"] |}).
Proof.
  destruct (no_mx_records_gives_unknown offline "bob@example.com" initial)
    as [Hunknown _]; [reflexivity|].
  rewrite Hunknown; reflexivity.
Defined.

(** C3, as stated, fails: for bob@example.com in a world without DNS
    answers the lookup yields no records, the domain has neither an MX nor
    an A record, and yet the probe returns UNKNOWN, not INVALID; INVALID
    is what the MX-only heuristic would have answered. *)
Lemma no_mx_records_is_not_the_heuristic :
  (get_mx_records offline "example.com" initial).1 = []
  ∧ dns_a offline [] "example.com" = false
  ∧ result (verify_email_smtp offline "bob@example.com" initial).1 = UNKNOWN
  ∧ result (verify_email_mx_only offline "bob@example.com" initial).1
    = INVALID
  ∧ result (verify_email_smtp offline "bob@example.com" initial).1
    ≠ INVALID.
Proof. repeat split; try reflexivity. by vm_compute. Qed.

(** C4, as the code has it.  The probe itself only requires an [@]: for
    an input that is empty or has no [@] it returns INVALID ("Invalid
    email format") and leaves the state as it is, so nothing reaches the
    network.  The check against the local-part/domain pattern is the
    orchestrator's: a candidate that fails [quick_syntax_check] is skipped
    by the pattern loop without being probed. *)
Theorem probe_rejects_missing_at
    (w : World) (address : string) (s : state) :
  mem_char "@" address = false →
  verify_email_smtp w address s
  = ({| email := address; result := INVALID;
        message := Literal "Invalid email format" |}, s)
  ∧ quick_syntax_check address = false
  ∧ ∀ candidate i rest s',
      quick_syntax_check candidate = false →
      try_patterns w i (candidate :: rest) s' = try_patterns w (S i) rest s'.
Proof.
  intros Hat. split; [|split].
  - unfold verify_email_smtp. rewrite Hat. cbn [negb]. by rewrite orb_true_r.
  - unfold quick_syntax_check, Re.matches, syntax_pattern.
    by rewrite plus_then_char_needs_char.
  - intros candidate i rest s' Hcheck. cbn [try_patterns].
    by rewrite Hcheck.
Qed.

Lemma probe_rejects_missing_at_witness :
  verify_email_smtp offline "john.smith.acme.com" initial
  = ({| email := "john.smith.acme.com"; result := INVALID;
        message := Literal "Invalid email format" |}, initial).
Proof.
  apply (probe_rejects_missing_at offline "john.smith.acme.com" initial).
  reflexivity.
Defined.

(** C4, as stated, fails: john.smith@acme fails the pattern (its domain
    has no dot), yet the probe does not answer INVALID at once; it asks
    the DNS for the mail exchangers of "acme". *)
Lemma syntax_failure_still_reaches_the_network :
  quick_syntax_check "john.smith@acme" = false
  ∧ result (verify_email_smtp offline "john.smith@acme" initial).1 = UNKNOWN
  ∧ log (verify_email_smtp offline "john.smith@acme" initial).2
    = [DnsQuery "MX" "acme"].
Proof. repeat split; reflexivity. Qed.

End ProbeGuardsSpec.

(** ** The orchestrator *)

Module EmailFinderSpec.
Import PyStr PatternGenerator Env EmailVerifier DomainFinder EmailFinder.

Lemma try_patterns_catch_all
    (w : World) (pre post : list string) (candidate : string)
    (i : nat) (s1 s2 s3 : state) (v : EmailVerification) :
  runs_inconclusive w pre s1 = Some s2 →
  quick_syntax_check candidate = true →
  verify_email_smtp w candidate s2 = (v, s3) →
  result v = CATCH_ALL →
  try_patterns w i (pre ++ candidate :: post) s1
  = (Some (CatchAll (i + length pre)), s3).
Proof.
  intros Hpre Hcheck Hprobe Hresult.
  revert i s1 Hpre. induction pre as [|email pre IH]; intros i s1 Hpre.
  - cbn [runs_inconclusive] in Hpre. injection Hpre as ->.
    cbn [app try_patterns length]. rewrite Hcheck. cbn [negb].
    unfold mbind, M_bind. rewrite Hprobe, Hresult.
    by rewrite Nat.add_0_r.
  - cbn [runs_inconclusive] in Hpre. cbn [app try_patterns length].
    destruct (negb (quick_syntax_check email)).
    + rewrite (IH (S i) s1 Hpre). do 3 f_equal. lia.
    + unfold mbind, M_bind.
      destruct (verify_email_smtp w email s1) as [v' s'].
      destruct (result v'); try discriminate Hpre;
        unfold emit; rewrite (IH (S i) _ Hpre); do 3 f_equal; lia.
Qed.

(** C6.  For a contact with the three fields present, with verification
    on, whose domain resolves and whose first-name, last-name pair gives
    patterns: when, among the first eight patterns, the candidate at index
    [i] passes the syntax check and is probed CATCH_ALL, every candidate
    before it having been skipped or probed with an outcome other than
    VALID and CATCH_ALL, the contact's result has status catch_all, its
    email is the pattern at index 0 (not the candidate probed), and the
    number of patterns tried is [i + 1]. *)
Theorem catch_all_reports_first_pattern
    (unidecode : string → string) (w : World) (self : Finder)
    (first_name last_name company : option string) (dom : string)
    (cache : option (gmap string string))
    (pre post : list string) (candidate : string)
    (s s1 s2 s3 : state) (v : EmailVerification) :
  truthy first_name = true → truthy last_name = true →
  truthy company = true →
  verify self = true →
  find_domain w (default EmptyString company) (Some (domain_cache self)) s
    = ((Some dom, cache), s1) →
  nonempty dom = true →
  let patterns := generate_email_patterns unidecode first_name last_name dom in
  take 8 patterns = pre ++ candidate :: post →
  runs_inconclusive w pre s1 = Some s2 →
  quick_syntax_check candidate = true →
  verify_email_smtp w candidate s2 = (v, s3) →
  result v = CATCH_ALL →
  let contact :=
    (find_email_for_contact unidecode w self first_name last_name company s)
      .1.1 in
  verification_status contact = "catch_all"
  ∧ found_email contact = patterns !! 0%nat
  ∧ is_Some (patterns !! 0%nat)
  ∧ patterns_tried contact = (length pre + 1)%nat.
Proof.
  intros Hfirst Hlast Hcompany Hverify Hfind Hdom patterns Htake Hpre Hcheck
    Hprobe Hresult contact.
  subst patterns.
  destruct (generate_email_patterns unidecode first_name last_name dom)
    as [|first_pattern others] eqn:Hpatterns; [by destruct pre|].
  assert (contact
          = {| first_name := default EmptyString first_name;
               last_name := default EmptyString last_name;
               company := default EmptyString company;
               domain := Some dom;
               found_email := Some first_pattern;
               verification_status := "catch_all";
               patterns_tried := 0 + length pre + 1 |}) as ->.
  { unfold contact, find_email_for_contact.
    rewrite Hfirst, Hlast, Hcompany. cbn [negb orb].
    unfold mbind at 1. unfold M_bind at 1. rewrite Hfind.
    cbv beta iota. cbn [truthy]. rewrite Hdom.
    cbn [negb default from_option]. unfold id. rewrite Hpatterns.
    cbn [verify with_domain_cache]. rewrite Hverify. cbn [negb].
    unfold mbind, M_bind. rewrite Htake.
    by rewrite (try_patterns_catch_all w pre post candidate 0 s1 s2 s3 v). }
  cbn. eauto.
Qed.

Lemma catch_all_reports_first_pattern_witness :
  let contact :=
    (find_email_for_contact unidecode_sample
       (acme_world second_try_accepts) new_finder
       (Some "John") (Some "Smith") (Some "Acme Corp") initial).1.1 in
  verification_status contact = "catch_all"
  ∧ found_email contact = Some "john.smith@acme.com"
  ∧ patterns_tried contact = 2%nat.
Proof.
  pose (w := acme_world second_try_accepts).
  pose (resolved := find_domain w "Acme Corp" (Some ∅) initial).
  pose (s2 := runs_inconclusive w ["john.smith@acme.com"] resolved.2).
  pose (probe := verify_email_smtp w "johnsmith@acme.com"
                   (default initial s2)).
  destruct (catch_all_reports_first_pattern unidecode_sample w new_finder
              (Some "John") (Some "Smith") (Some "Acme Corp") "acme.com"
              resolved.1.2 ["john.smith@acme.com"]
              (drop 2 (take 8 (generate_email_patterns unidecode_sample
                                 (Some "John") (Some "Smith") "acme.com")))
              "johnsmith@acme.com"
              initial resolved.2 (default initial s2) probe.2 probe.1)
    as (Hstatus & Hemail & _ & Htried).
  - reflexivity.
  - reflexivity.
  - reflexivity.
  - reflexivity.
  - vm_compute. reflexivity.
  - reflexivity.
  - vm_compute. reflexivity.
  - vm_compute. reflexivity.
  - reflexivity.
  - vm_compute. reflexivity.
  - vm_compute. reflexivity.
  - cbv zeta. split; [exact Hstatus|]. split; [|exact Htried].
    etrans; [exact Hemail|reflexivity].
Defined.

End EmailFinderSpec.

(** * Further properties of the code *)

(** ** Traces of the probe *)

Module TraceFacts.
Import PyStr PyStrFacts Env EmailVerifier EmailVerifierFacts Trace.

Lemma extends_refl P s : extends P s s.
Proof. split; [done|]. by exists []. Qed.

Lemma extends_trans P s1 s2 s3 :
  extends P s1 s2 → extends P s2 s3 → extends P s1 s3.
Proof.
  intros [Hc1 (es1 & Hl1 & Hp1)] [Hc2 (es2 & Hl2 & Hp2)].
  split; [congruence|]. exists (es2 ++ es1).
  split; [by rewrite Hl2, Hl1, app_assoc|].
  by rewrite forallb_app, Hp1, Hp2.
Qed.

Lemma extends_logged (P : event → bool) e s :
  P e = true → extends P s (logged e s).
Proof.
  intros He. split; [done|]. exists [e]. split; [done|].
  simpl. by rewrite He.
Qed.

Lemma session_event_send h data : session_event h (SmtpSend h data) = true.
Proof. apply String.eqb_refl. Qed.
Lemma session_event_recv h : session_event h (SmtpRecv h) = true.
Proof. apply String.eqb_refl. Qed.
Lemma session_event_close h : session_event h (SmtpClose h) = true.
Proof. apply String.eqb_refl. Qed.

Lemma steady_ret {A} (a : A) : steady (mret a).
Proof. intros c s. split; [done|]. split; [done|]. apply extends_refl. Qed.

Lemma steady_raise {A} : steady (@raise A).
Proof. intros c s. split; [done|]. split; [done|]. apply extends_refl. Qed.

Lemma steady_bind {A B} (m : C A) (k : A → C B) :
  steady m → (∀ a, steady (k a)) → steady (m ≫= k).
Proof.
  intros Hm Hk c s. unfold mbind, C_bind.
  specialize (Hm c s). destruct (m c s) as [[[a|] c1] s1]; [|done].
  cbn [fst snd] in Hm. destruct Hm as (Hh & Hs & He).
  specialize (Hk a c1 s1). destruct (k a c1 s1) as [[r c2] s2].
  cbn [fst snd] in *. destruct Hk as (Hh' & Hs' & He').
  rewrite Hh in *. split; [congruence|]. split; [congruence|].
  by apply (extends_trans _ _ s1).
Qed.

Lemma steady_catch {A} (m handler : C A) :
  steady m → steady handler → steady (catch m handler).
Proof.
  intros Hm Hh c s. unfold catch.
  specialize (Hm c s). destruct (m c s) as [[[a|] c1] s1]; [done|].
  cbn [fst snd] in Hm. destruct Hm as (Hh1 & Hs1 & He1).
  specialize (Hh c1 s1). destruct (handler c1 s1) as [[r c2] s2].
  cbn [fst snd] in *. destruct Hh as (Hh' & Hs' & He').
  rewrite Hh1 in *. split; [congruence|]. split; [congruence|].
  by apply (extends_trans _ _ s1).
Qed.

Lemma steady_finally {A} (m : C A) (cleanup : C unit) :
  steady m → steady cleanup → steady (finally m cleanup).
Proof.
  intros Hm Hc c s. unfold finally.
  specialize (Hm c s). destruct (m c s) as [[r c1] s1].
  cbn [fst snd] in Hm. destruct Hm as (Hh1 & Hs1 & He1).
  specialize (Hc c1 s1). destruct (cleanup c1 s1) as [[[[]|] c2] s2];
    cbn [fst snd] in *; destruct Hc as (Hh' & Hs' & He');
    rewrite Hh1 in *; (split; [congruence|]); (split; [congruence|]);
    by apply (extends_trans _ _ s1).
Qed.

Lemma steady_readline : steady readline.
Proof.
  intros c s. split; [done|]. split; [done|].
  apply extends_logged, session_event_recv.
Qed.

Lemma steady_send data : steady (send data).
Proof.
  intros c s. split; [done|]. split; [done|].
  apply extends_logged, session_event_send.
Qed.

Lemma steady_close : steady close.
Proof.
  intros c s. split; [done|]. split; [done|].
  apply extends_logged, session_event_close.
Qed.

Lemma steady_reply_code response : steady (reply_code response).
Proof.
  unfold reply_code. destruct (3 <=? String.length response)%nat;
    [|apply steady_ret].
  destruct (utf8_valid _); [apply steady_ret|apply steady_raise].
Qed.

Lemma steady_decode response : steady (decode response).
Proof.
  unfold decode. destruct (utf8_valid _); [apply steady_ret|apply steady_raise].
Qed.

Lemma steady_second_field address : steady (second_field address).
Proof.
  unfold second_field. destruct (split_on "@" address) as [|? [|? ?]];
    first [apply steady_ret|apply steady_raise].
Qed.

Lemma steady_check_catch_all domain : steady (_check_catch_all domain).
Proof.
  apply steady_catch; [|apply steady_ret].
  apply steady_bind; [apply steady_send|intros _].
  apply steady_bind; [apply steady_readline|intros response].
  apply steady_bind; [apply steady_reply_code|intros code].
  apply steady_ret.
Qed.

Lemma steady_analyze_response address response :
  steady (analyze_response address response).
Proof.
  apply steady_bind; [apply steady_reply_code|intros code].
  apply steady_bind; [apply steady_decode|intros _].
  destruct (String.eqb code "250").
  - apply steady_bind; [apply steady_second_field|intros domain].
    apply steady_bind; [apply steady_check_catch_all|intros []];
      apply steady_ret.
  - destruct (permanent_failure code); [apply steady_ret|].
    destruct (_ || _); apply steady_ret.
Qed.

Lemma steady_dialogue address : steady (dialogue address).
Proof.
  apply steady_bind; [apply steady_readline|intros greeting].
  destruct (negb _); [apply steady_ret|].
  apply steady_bind; [apply steady_send|intros _].
  apply steady_bind; [apply steady_readline|intros _].
  apply steady_bind; [apply steady_send|intros _].
  apply steady_bind; [apply steady_readline|intros reply].
  destruct (negb _); [apply steady_ret|].
  apply steady_bind; [apply steady_send|intros _].
  apply steady_bind; [apply steady_readline|intros response].
  apply steady_analyze_response.
Qed.

Lemma steady_teardown : steady teardown.
Proof.
  apply steady_bind; [apply steady_send|intros _]. apply steady_close.
Qed.

End TraceFacts.

Module ProbeTraceSpec.
Import PyStr PyStrFacts Env EmailVerifier EmailVerifierFacts Trace TraceFacts.

Section WithWorld.
Variable w : World.

Lemma connections_app_session h es l :
  forallb (session_event h) es = true → connections (es ++ l) = connections l.
Proof.
  induction es as [|e es IH]; [done|]. simpl.
  intros [He Hes]%andb_prop. destruct e; try done; by apply IH.
Qed.

(** What one call of [_check_smtp] does to the state: the MX cache is
    kept, and the log gains the connection attempt and then events of
    the conversation with that host only. *)
Lemma check_smtp_trace address mx_host s :
  mx_cache (_check_smtp w address mx_host s).2 = mx_cache s
  ∧ ∃ es, log (_check_smtp w address mx_host s).2
          = es ++ SmtpConnect mx_host :: log s
          ∧ forallb (session_event mx_host) es = true.
Proof.
  unfold _check_smtp, mbind, M_bind, history, emit.
  destruct (negb (connects (smtp w (log s) mx_host))).
  { split; [done|]. by exists []. }
  pose proof (steady_finally _ _ (steady_dialogue address) steady_teardown
                (opened mx_host (smtp w (log s) mx_host))
                (logged (SmtpConnect mx_host) s)) as (_ & _ & Hext).
  destruct (finally (dialogue address) teardown _ _) as [[[v|] c'] s'];
    exact Hext.
Qed.

Lemma check_smtp_connections address mx_host s :
  connections (log (_check_smtp w address mx_host s).2)
  = S (connections (log s)).
Proof.
  destruct (check_smtp_trace address mx_host s) as (_ & es & -> & Hes).
  by rewrite (connections_app_session _ _ _ Hes).
Qed.

Lemma try_hosts_trace address hosts s :
  mx_cache (try_hosts w address hosts s).2 = mx_cache s
  ∧ (connections (log (try_hosts w address hosts s).2)
     ≤ connections (log s) + length hosts)%nat
  ∧ ∀ v, (try_hosts w address hosts s).1 = Some v → result v ≠ UNKNOWN.
Proof.
  revert s. induction hosts as [|h hosts IH]; intros s.
  { cbn. split; [done|]. split; [lia|done]. }
  cbn [try_hosts]. unfold mbind, M_bind.
  pose proof (check_smtp_trace address h s) as [Hcache _].
  pose proof (check_smtp_connections address h s) as Hconn.
  destruct (_check_smtp w address h s) as [v s1]. cbn [fst snd] in *.
  destruct (decide (result v ≠ UNKNOWN)) as [Hv|Hv].
  - cbn. split; [done|]. split; [lia|]. by intros ? [= <-].
  - destruct (IH s1) as (Hc & Hn & Hr). rewrite Hc, Hcache.
    split; [done|]. split; [cbn [length]; lia|done].
Qed.

(** The outcome of a lookup of mail exchangers. *)
Lemma get_mx_records_run name s :
  (∀ hosts, mx_cache s !! name = Some hosts →
            get_mx_records w name s = (hosts, s))
  ∧ connections (log (get_mx_records w name s).2) = connections (log s)
  ∧ ((get_mx_records w name s).1 ≠ [] →
     mx_cache (get_mx_records w name s).2 !! name
     = Some (get_mx_records w name s).1).
Proof.
  unfold get_mx_records, mbind, M_bind, get_mx_cache, history, emit,
    set_mx_cache.
  split; [by intros hosts ->|].
  destruct (mx_cache s !! name) as [hosts|] eqn:Hcache; [done|].
  destruct (dns_mx w (log s) name) as [records|] eqn:Hdns; cbn; [|done].
  split; [done|]. by rewrite lookup_insert_eq.
Qed.

End WithWorld.

(** X1.  A lookup of mail exchangers that returns hosts has them in the
    MX cache afterwards: every later lookup for the same domain, in any
    state with that cache, returns the same hosts and leaves the state as
    it is (no DNS query).  A lookup that fails is not cached: when the
    domain is not in the cache and the resolver raises, the lookup
    returns no hosts, records the query and leaves the cache as it was. *)
Theorem mx_lookup_is_cached (w : World) (name : string) (s : state) :
  ((get_mx_records w name s).1 ≠ [] →
   ∀ s', mx_cache s' = mx_cache (get_mx_records w name s).2 →
         get_mx_records w name s' = ((get_mx_records w name s).1, s'))
  ∧ (mx_cache s !! name = None → dns_mx w (log s) name = None →
     get_mx_records w name s = ([], logged (DnsQuery "MX" name) s)).
Proof.
  split.
  - intros Hhosts s' Hcache.
    destruct (get_mx_records_run w name s) as (_ & _ & Hstored).
    destruct (get_mx_records_run w name s') as (Hhit & _).
    apply Hhit. rewrite Hcache. by apply Hstored.
  - intros Hcache Hdns.
    unfold get_mx_records, mbind, M_bind, get_mx_cache, history, emit.
    by rewrite Hcache, Hdns.
Qed.

Lemma mx_lookup_is_cached_witness :
  (get_mx_records (acme_world (fun _ => unknown_user)) "acme.com" initial).1
  = ["mx.acme.com"]
  ∧ get_mx_records (acme_world (fun _ => unknown_user)) "acme.com"
      (get_mx_records (acme_world (fun _ => unknown_user)) "acme.com"
         initial).2
    = (["mx.acme.com"],
       (get_mx_records (acme_world (fun _ => unknown_user)) "acme.com"
          initial).2).
Proof.
  destruct (mx_lookup_is_cached (acme_world (fun _ => unknown_user))
              "acme.com" initial) as [Hcached _].
  split; [reflexivity|].
  apply Hcached; [by vm_compute|reflexivity].
Defined.

(** X2.  For an address with an [@], the probe answers UNKNOWN exactly
    when the lookup of the mail exchangers of its domain yields no host:
    with at least one host, either an exchanger gives a conclusive answer
    or the MX-only fallback answers VALID. *)
Theorem probe_unknown_iff_no_mx (w : World) (address : string) (s : state) :
  mem_char "@" address = true →
  result (verify_email_smtp w address s).1 = UNKNOWN
  ↔ (get_mx_records w (after_last "@" address) s).1 = [].
Proof.
  intros Hat. unfold verify_email_smtp.
  assert (nonempty address = true) as Hne by by destruct address.
  rewrite Hat, Hne. cbn [negb orb]. unfold mbind, M_bind.
  destruct (get_mx_records_run w (after_last "@" address) s)
    as (_ & _ & Hstored).
  destruct (get_mx_records w (after_last "@" address) s) as [hosts s1].
  cbn [fst snd] in *. destruct hosts as [|h hosts]; [done|].
  specialize (Hstored ltac:(done)).
  destruct (try_hosts_trace w address (take 2 (h :: hosts)) s1)
    as (Hcache & _ & Hconclusive).
  destruct (try_hosts w address (take 2 (h :: hosts)) s1) as [[v|] s2];
    cbn [fst snd] in *.
  - split; [|done]. intros Hv. by destruct (Hconclusive v eq_refl).
  - unfold verify_email_mx_only. rewrite Hat, Hne. cbn [negb orb].
    unfold mbind, M_bind.
    destruct (get_mx_records_run w (after_last "@" address) s2) as (Hhit & _).
    rewrite (Hhit (h :: hosts)) by by rewrite Hcache.
    done.
Qed.

Lemma probe_unknown_iff_no_mx_witness :
  result (verify_email_smtp DomainFinder.offline "bob@example.com" initial).1
  = UNKNOWN.
Proof.
  apply (probe_unknown_iff_no_mx DomainFinder.offline "bob@example.com"
           initial); reflexivity.
Defined.

(** X3.  One probe opens at most two connections, whatever the number
    of mail exchangers of the domain. *)
Theorem probe_opens_at_most_two_connections
    (w : World) (address : string) (s : state) :
  (connections (log (verify_email_smtp w address s).2)
   ≤ connections (log s) + 2)%nat.
Proof.
  unfold verify_email_smtp.
  destruct (negb (nonempty address) || negb (mem_char "@" address)) eqn:Hg.
  { cbn. lia. }
  unfold mbind, M_bind.
  destruct (get_mx_records_run w (after_last "@" address) s)
    as (_ & Hn & _).
  destruct (get_mx_records w (after_last "@" address) s) as [hosts s1].
  cbn [fst snd] in *. destruct hosts as [|h hosts]; [cbn; lia|].
  destruct (try_hosts_trace w address (take 2 (h :: hosts)) s1)
    as (_ & Hn' & _).
  assert (length (take 2 (h :: hosts)) ≤ 2)%nat as Hlen
    by (rewrite length_take; lia).
  destruct (try_hosts w address (take 2 (h :: hosts)) s1) as [[v|] s2];
    cbn [fst snd] in *; [cbn [mret M_ret fst snd]; lia|].
  unfold verify_email_mx_only. rewrite Hg. unfold mbind, M_bind.
  destruct (get_mx_records_run w (after_last "@" address) s2)
    as (_ & Hn'' & _).
  destruct (get_mx_records w (after_last "@" address) s2) as [hosts' s3].
  cbn [fst snd] in *. destruct hosts'; cbn; lia.
Qed.

(** X4.  When no mail exchanger can be reached (every connection attempt
    fails), a probe of an address whose domain has mail exchangers
    answers VALID: the MX-only fallback takes the place of the SMTP
    check. *)
Theorem unreachable_exchangers_give_valid
    (w : World) (address : string) (s : state) :
  mem_char "@" address = true →
  (get_mx_records w (after_last "@" address) s).1 ≠ [] →
  (∀ h mx_host, connects (smtp w h mx_host) = false) →
  result (verify_email_smtp w address s).1 = VALID
  ∧ message (verify_email_smtp w address s).1
    = Literal "Domain can receive email (MX verified)".
Proof.
  intros Hat Hhosts Hrefused. unfold verify_email_smtp.
  assert (nonempty address = true) as Hne by by destruct address.
  rewrite Hat, Hne. cbn [negb orb]. unfold mbind, M_bind.
  destruct (get_mx_records_run w (after_last "@" address) s)
    as (_ & _ & Hstored).
  destruct (get_mx_records w (after_last "@" address) s) as [hosts s1].
  cbn [fst snd] in *. destruct hosts as [|h hosts]; [done|].
  specialize (Hstored ltac:(done)).
  assert (∀ l s', (try_hosts w address l s').1 = None) as Hnone.
  { induction l as [|x l IH]; intros s'; [done|].
    cbn [try_hosts]. unfold _check_smtp, history, emit, mbind, M_bind.
    cbv beta iota zeta. rewrite Hrefused. cbn [negb mret M_ret result].
    destruct (decide (UNKNOWN ≠ UNKNOWN)); [done|]. apply IH. }
  destruct (try_hosts_trace w address (take 2 (h :: hosts)) s1)
    as (Hcache & _ & _).
  specialize (Hnone (take 2 (h :: hosts)) s1).
  destruct (try_hosts w address (take 2 (h :: hosts)) s1) as [r s2].
  cbn [fst snd] in *. subst r.
  unfold verify_email_mx_only. rewrite Hat, Hne. cbn [negb orb].
  unfold mbind, M_bind.
  destruct (get_mx_records_run w (after_last "@" address) s2) as (Hhit & _).
  by rewrite (Hhit (h :: hosts)) by by rewrite Hcache.
Qed.

Lemma unreachable_exchangers_give_valid_witness :
  result (verify_email_smtp
            (acme_world (fun _ => scripted false [] [] true))
            "bob@acme.com" initial).1 = VALID.
Proof.
  apply (unreachable_exchangers_give_valid
           (acme_world (fun _ => scripted false [] [] true))
           "bob@acme.com" initial).
  - reflexivity.
  - by vm_compute.
  - reflexivity.
Defined.

(** X5.  Once the connection is open, the QUIT command is written on
    every path, and when closing the connection fails the outcome is
    UNKNOWN whatever the server answered before. *)
Theorem session_always_ends_with_quit
    (w : World) (address mx_host : string) (s : state) :
  connects (smtp w (log s) mx_host) = true →
  SmtpSend mx_host ("QUIT" +:+ CRLF) ∈ log (_check_smtp w address mx_host s).2
  ∧ (closes (smtp w (log s) mx_host) = false →
     result (_check_smtp w address mx_host s).1 = UNKNOWN).
Proof.
  intros Hconn. unfold _check_smtp, mbind, M_bind, history, emit.
  rewrite Hconn. cbn [negb]. unfold finally.
  pose proof (steady_dialogue address
                (opened mx_host (smtp w (log s) mx_host))
                (logged (SmtpConnect mx_host) s)) as (Hhost & Hscript & _).
  destruct (dialogue address _ _) as [[r c1] s1]. cbn [fst snd] in *.
  cbn [opened host script] in Hhost, Hscript.
  unfold teardown, mbind, C_bind, send, close.
  cbn [host script after_write]. rewrite Hhost, Hscript.
  destruct (writes _ _); [destruct (closes _)|].
  - split; [|done]. destruct r; cbn; set_solver.
  - split; [destruct r; cbn; set_solver|done].
  - split; [destruct r; cbn; set_solver|done].
Qed.

Lemma session_always_ends_with_quit_witness :
  SmtpSend "mx.acme.com" ("QUIT" +:+ CRLF)
  ∈ log (_check_smtp (acme_world (fun _ => unknown_user))
           "bob@acme.com" "mx.acme.com" initial).2.
Proof.
  apply (session_always_ends_with_quit (acme_world (fun _ => unknown_user))
           "bob@acme.com" "mx.acme.com" initial).
  reflexivity.
Defined.

End ProbeTraceSpec.

(** ** The order of the mail exchangers *)

Module MxOrderSpec.
Import PyStr Env EmailVerifier.

Lemma mx_leb_total a b : mx_leb a b = false → mx_leb b a = true.
Proof.
  unfold mx_leb. destruct a as [p h], b as [q k]. cbn [fst snd].
  intros [Hlt Heq]%orb_false_elim.
  apply N.ltb_ge in Hlt. destruct (N.eqb_spec p q) as [->|Hne].
  - cbn [andb] in Heq. rewrite N.eqb_refl, N.ltb_irrefl. cbn.
    destruct (String.leb_total h k) as [H|H]; [congruence|done].
  - assert ((q <? p) = true) as ->; [|done]. apply N.ltb_lt. lia.
Qed.

Lemma insert_mx_perm r l : insert_mx r l ≡ₚ r :: l.
Proof.
  induction l as [|x l IH]; [done|]. cbn [insert_mx].
  destruct (mx_leb r x); [done|]. by rewrite IH, Permutation_swap.
Qed.

Lemma sorted_mx_perm l : sorted_mx l ≡ₚ l.
Proof.
  induction l as [|r l IH]; [done|].
  unfold sorted_mx in *. cbn [foldr]. by rewrite insert_mx_perm, IH.
Qed.

Lemma insert_mx_sorted r l :
  Sorted (fun a b => mx_leb a b = true) l →
  Sorted (fun a b => mx_leb a b = true) (insert_mx r l).
Proof.
  induction 1 as [|x l Hs IH Hhd]; [by repeat constructor|].
  cbn [insert_mx]. destruct (mx_leb r x) eqn:Hrx.
  - by repeat constructor.
  - constructor; [done|].
    destruct l as [|y l]; cbn [insert_mx].
    + constructor. by apply mx_leb_total.
    + destruct (mx_leb r y); constructor;
        [by apply mx_leb_total|by inversion Hhd].
Qed.

Lemma sorted_mx_sorted l : Sorted (fun a b => mx_leb a b = true) (sorted_mx l).
Proof.
  induction l as [|r l IH]; [constructor|].
  unfold sorted_mx in *. cbn [foldr]. by apply insert_mx_sorted.
Qed.

(** X6.  On a lookup that is not served from the cache and that the
    resolver answers, the hosts returned are the exchanges of the
    records, trailing dots stripped, ordered by preference and, at equal
    preference, by name: no record is lost or duplicated. *)
Theorem mx_hosts_in_preference_order
    (w : World) (name : string) (s : state) (records : list (N * string)) :
  mx_cache s !! name = None →
  dns_mx w (log s) name = Some records →
  ∃ l, (get_mx_records w name s).1 = l.*2
       ∧ l ≡ₚ (fun r => (r.1, rstrip_dots r.2)) <$> records
       ∧ Sorted (fun a b => mx_leb a b = true) l.
Proof.
  intros Hcache Hdns.
  exists (sorted_mx ((fun r => (r.1, rstrip_dots r.2)) <$> records)).
  split; [|split; [apply sorted_mx_perm|apply sorted_mx_sorted]].
  unfold get_mx_records, mbind, M_bind, get_mx_cache, history, emit.
  by rewrite Hcache, Hdns.
Qed.

Lemma mx_hosts_in_preference_order_witness :
  (get_mx_records
     {| dns_mx := fun _ _ => Some [(20, "mx2.acme.com."); (10, "mx1.acme.com.");
                                   (20, "mx0.acme.com.")];
        dns_a := fun _ _ => false; web_search := fun _ _ => None;
        smtp := fun _ _ => scripted false [] [] true |}
     "acme.com" initial).1
  = ["mx1.acme.com"; "mx0.acme.com"; "mx2.acme.com"].
Proof.
  destruct (mx_hosts_in_preference_order
              {| dns_mx := fun _ _ => Some [(20, "mx2.acme.com.");
                                            (10, "mx1.acme.com.");
                                            (20, "mx0.acme.com.")];
                 dns_a := fun _ _ => false; web_search := fun _ _ => None;
                 smtp := fun _ _ => scripted false [] [] true |}
              "acme.com" initial
              [(20, "mx2.acme.com."); (10, "mx1.acme.com.");
               (20, "mx0.acme.com.")])
    as (l & Hhosts & _); [reflexivity|reflexivity|].
  reflexivity.
Defined.

End MxOrderSpec.

(** ** The resolver and its cache *)

Module DomainCacheSpec.
Import PyStr PyStrFacts Env DomainFinder DomainFinderSpec PatternGeneratorFacts.

Lemma find_domain_of_blank
    (w : World) (company : string) (cache : option (gmap string string))
    (s : state) :
  blank company = true →
  find_domain w company cache s = ((None, cache), s).
Proof.
  unfold blank. intros Hblank%negb_true_iff. unfold find_domain.
  by rewrite Hblank, orb_true_r.
Qed.

(** X7.  For a company name that is empty or all blanks the resolver
    returns no domain and touches nothing, even when the cache has an
    entry for the normalized name: the cache, the MX cache and the log
    are as before. *)
Theorem find_domain_blank
    (w : World) (company : string) (cache : option (gmap string string))
    (s : state) :
  blank company = true →
  (find_domain w company cache s).1 = (None, cache)
  ∧ log (find_domain w company cache s).2 = log s
  ∧ mx_cache (find_domain w company cache s).2 = mx_cache s.
Proof.
  intros Hblank. by rewrite (find_domain_of_blank w company cache s Hblank).
Qed.

Lemma find_domain_blank_witness :
  (find_domain offline "   " (Some {[ "" := "acme.io" ]}) initial).1
  = (None, Some {[ "" := "acme.io" ]}).
Proof.
  apply (find_domain_blank offline "   " (Some {[ "" := "acme.io" ]}) initial).
  reflexivity.
Defined.

Lemma find_domain_answer_stored
    (w : World) (company : string) (m : gmap string string) (s : state) :
  blank company = false →
  ∃ m', (find_domain w company (Some m) s).1.2 = Some m'
        ∧ match (find_domain w company (Some m) s).1.1 with
          | Some d => m' !! normalize_company_name company = Some d
          | None => m' = m
          end.
Proof.
  intros Hblank. unfold find_domain.
  rewrite (not_blank_nonempty _ Hblank).
  unfold blank in Hblank. apply negb_false_iff in Hblank. rewrite Hblank.
  cbn [negb orb].
  destruct (cache_hit (Some m) (normalize_company_name company)) as [d|]
    eqn:Hhit.
  { exists m. split; [done|]. cbn. unfold cache_hit in Hhit.
    by destruct (decide (m = ∅)). }
  generalize (normalize_company_name company) as key.
  destruct (guess_domain_from_name company) as [g|]; intros key;
    unfold mbind, M_bind, mret, M_ret, cache_store;
    repeat first
      [ progress cbn [truthy default from_option fst snd]
      | progress unfold id
      | match goal with
        | |- context [nonempty ?x] => destruct (nonempty x)
        | |- context [verify_domain_exists w ?d ?s0] =>
            destruct (verify_domain_exists w d s0) as [[] ?]
        | |- context [search_domain_duckduckgo w ?c ?s0] =>
            destruct (search_domain_duckduckgo w c s0) as [[?|] ?]
        end ];
    (eexists; split; [done|]); cbn; by rewrite ?lookup_insert_eq.
Qed.

(** X8.  What the resolver returns is what it leaves in the cache: for
    a company name that is not blank and a cache object, when a domain
    is returned the cache afterwards maps the normalized name to it, and
    when none is returned the cache is unchanged. *)
Theorem find_domain_stores_its_answer
    (w : World) (company : string) (m : gmap string string) (s s' : state)
    (answer : option string) (cache' : option (gmap string string)) :
  blank company = false →
  find_domain w company (Some m) s = ((answer, cache'), s') →
  ∃ m', cache' = Some m'
        ∧ match answer with
          | Some d => m' !! normalize_company_name company = Some d
          | None => m' = m
          end.
Proof.
  intros Hblank Hrun.
  destruct (find_domain_answer_stored w company m s Hblank)
    as (m' & Hcache & Hanswer).
  rewrite Hrun in Hcache, Hanswer. cbn [fst snd] in *.
  exists m'. by split.
Qed.

Lemma find_domain_stores_its_answer_witness :
  ∃ m', (find_domain offline "Some Random Startup LLC" (Some ∅) initial).1.2
        = Some m'
        ∧ m' !! "some random startup" = Some "somerandomstartup.com".
Proof.
  destruct (find_domain_stores_its_answer offline "Some Random Startup LLC"
              ∅ initial
              (find_domain offline "Some Random Startup LLC" (Some ∅)
                 initial).2
              (Some "somerandomstartup.com")
              (find_domain offline "Some Random Startup LLC" (Some ∅)
                 initial).1.2)
    as (m' & Hcache & Hanswer); [reflexivity|vm_compute; reflexivity|].
  exists m'. split; [exact Hcache|]. exact Hanswer.
Defined.

(** X9.  Resolution is idempotent through the cache: once a company name
    that is not blank has been resolved to a domain, resolving any name,
    not blank, with the same normalized form on the resulting cache
    returns the same domain and leaves cache, state and log as they
    are. *)
Theorem find_domain_twice
    (w : World) (company company' d : string) (m m' : gmap string string)
    (s s' : state) :
  blank company = false → blank company' = false →
  normalize_company_name company' = normalize_company_name company →
  (find_domain w company (Some m) s).1 = (Some d, Some m') →
  find_domain w company' (Some m') s' = ((Some d, Some m'), s').
Proof.
  intros Hblank Hblank' Hkey Hfirst.
  destruct (find_domain_answer_stored w company m s Hblank)
    as (m'' & Hcache & Hanswer).
  rewrite Hfirst in Hcache, Hanswer. cbn [fst snd] in *.
  injection Hcache as <-.
  apply find_domain_hit; [done|]. by rewrite Hkey.
Qed.

Lemma find_domain_twice_witness :
  find_domain offline "some random startup, inc."
    (Some {[ "some random startup" := "somerandomstartup.com" ]}) initial
  = ((Some "somerandomstartup.com",
      Some {[ "some random startup" := "somerandomstartup.com" ]}), initial).
Proof.
  apply (find_domain_twice offline "Some Random Startup LLC"
           "some random startup, inc." "somerandomstartup.com" ∅
           {[ "some random startup" := "somerandomstartup.com" ]}
           initial initial).
  - reflexivity.
  - reflexivity.
  - vm_compute. reflexivity.
  - vm_compute. reflexivity.
Defined.

(** X10.  When the guess passes DNS verification the resolver returns
    it, stores it, and does nothing more: the state is the one the
    verification left, so there is no web search. *)
Theorem find_domain_verified_guess
    (w : World) (company g : string) (m : gmap string string) (s : state) :
  blank company = false →
  cache_hit (Some m) (normalize_company_name company) = None →
  guess_domain_from_name company = Some g →
  nonempty g = true →
  (verify_domain_exists w g s).1 = true →
  find_domain w company (Some m) s
  = ((Some g, Some (<[normalize_company_name company := g]> m)),
     (verify_domain_exists w g s).2)
  ∧ ∀ e, e ∈ log (find_domain w company (Some m) s).2 →
         e ∈ log s ∨ e = DnsQuery "MX" g ∨ e = DnsQuery "A" g.
Proof.
  intros Hblank Hmiss Hguess Hg Hverified.
  assert (find_domain w company (Some m) s
          = ((Some g, Some (<[normalize_company_name company := g]> m)),
             (verify_domain_exists w g s).2)) as ->.
  { unfold find_domain.
    rewrite (not_blank_nonempty _ Hblank).
    unfold blank in Hblank. apply negb_false_iff in Hblank. rewrite Hblank.
    cbn [negb orb]. rewrite Hmiss, Hguess. cbn [truthy default from_option].
    rewrite Hg. unfold mbind, M_bind, id.
    destruct (verify_domain_exists w g s) as [verified s1].
    cbn [fst snd] in *. by subst verified. }
  split; [done|]. cbn [snd].
  unfold verify_domain_exists, mbind, M_bind, history, emit, mret, M_ret.
  destruct (dns_mx w (log s) g); cbn; intros e He;
    repeat (apply elem_of_cons in He as [->|He]); auto.
Qed.

Lemma find_domain_verified_guess_witness :
  (find_domain (EmailVerifier.acme_world (fun _ => scripted false [] [] true))
     "Acme Corp" (Some ∅) initial).1
  = (Some "acme.com", Some {[ "acme" := "acme.com" ]}).
Proof.
  destruct (find_domain_verified_guess
              (EmailVerifier.acme_world (fun _ => scripted false [] [] true))
              "Acme Corp" "acme.com" ∅ initial) as [Hrun _];
    [reflexivity|reflexivity|by vm_compute|reflexivity|reflexivity|].
  rewrite Hrun. by vm_compute.
Defined.

Lemma known_domain_in_table table normalized d :
  known_domain table normalized = Some d → d ∈ table.*2.
Proof.
  induction table as [|[key value] table IH]; [done|]. cbn [known_domain].
  destruct (_ || _); [intros [= <-]; apply list_elem_of_here|].
  intros H. apply list_elem_of_further. by apply IH.
Qed.



End DomainCacheSpec.

(** ** The candidates *)

Module CandidatesSpec.
Import PyStr PyStrFacts Re PatternGenerator PatternGeneratorFacts.
Import PatternGeneratorSpec EmailVerifier Candidates.

Lemma all_str_app p a b :
  all_str p (a +:+ b) = all_str p a && all_str p b.
Proof.
  induction a as [|c a IH]; [done|].
  change (all_str p (String c (a +:+ b))
          = all_str p (String c a) && all_str p b).
  cbn [all_str]. by rewrite IH, andb_assoc.
Qed.

Lemma all_str_mem_char p c s :
  all_str p s = true → p c = false → mem_char c s = false.
Proof.
  intros Hs Hc. induction s as [|a s IH]; [done|].
  cbn [all_str mem_char] in *. apply andb_prop in Hs as [Ha Hs].
  rewrite (IH Hs), orb_false_r. destruct (Ascii.eqb_spec a c); [|done].
  congruence.
Qed.

(** The tokens of a string of lowercase letters and blanks are made of
    lowercase letters. *)
Lemma split_tokens_letters s :
  all_str plain_char s = true → Forall (fun t => all_str is_az t = true) (split s).
Proof.
  induction s as [|c s IH]; [constructor|].
  intros [Hc Hs]%andb_prop. specialize (IH Hs).
  change (split (String c s)) with
    (if is_space c then split s
     else match s with
          | EmptyString => [String c EmptyString]
          | String c' _ =>
              if is_space c' then String c EmptyString :: split s
              else match split s with
                   | t :: ts => String c t :: ts
                   | [] => [String c EmptyString]
                   end
          end).
  destruct (is_space c) eqn:Hsp; [done|].
  assert (is_az c = true) as Haz.
  { unfold plain_char in Hc. rewrite Hsp, orb_false_r in Hc. done. }
  assert (all_str is_az (String c EmptyString) = true) as Hone
    by (cbn; by rewrite Haz).
  destruct s as [|c' s']; [by repeat constructor|].
  destruct (is_space c'); [by constructor|].
  destruct (split (String c' s')) as [|t ts]; [by repeat constructor|].
  inversion IH; subst. constructor; [|done]. cbn. by rewrite Haz.
Qed.

Lemma last_token_letters parts :
  Forall (fun t => all_str is_az t = true) parts →
  all_str is_az (last_token parts) = true.
Proof.
  unfold last_token. intros H. destruct (last parts) as [t|] eqn:Hlast; [|done].
  apply last_Some_elem_of in Hlast. by eapply Forall_forall in H.
Qed.

Lemma first_token_letters parts :
  Forall (fun t => all_str is_az t = true) parts →
  all_str is_az (first_token parts) = true.
Proof. by destruct 1. Qed.

Lemma pattern_char_az c : is_az c = true → pattern_char c = true.
Proof. unfold pattern_char. by intros ->. Qed.

(** X12.  Whatever the transliteration and the name, a normalized name
    is made of lowercase letters a-z and blanks, has no blank at either
    end and no hyphen. *)
Theorem normalize_name_shape
    (unidecode : string → string) (name : option string) :
  all_str plain_char (normalize_name unidecode name) = true
  ∧ strip (normalize_name unidecode name) = normalize_name unidecode name
  ∧ mem_char "-" (normalize_name unidecode name) = false.
Proof.
  split; [apply normalize_name_plain|]. split; [apply normalize_name_stripped|].
  by apply (all_str_mem_char plain_char); [apply normalize_name_plain|].
Qed.

Lemma generated_addresses_have_shape
    (unidecode : string → string) (first_name last_name : option string)
    (domain : string) :
  Forall (fun address =>
            ∃ local_part, address = local_part +:+ "@" +:+ domain
                          ∧ nonempty local_part = true
                          ∧ all_str pattern_char local_part = true)
         (generate_email_patterns unidecode first_name last_name domain).
Proof.
  unfold generate_email_patterns.
  destruct (negb _ || negb _ || negb _); [constructor|].
  pose proof (first_token_letters _
                (split_tokens_letters _ (normalize_name_plain unidecode first_name)))
    as Hf.
  pose proof (last_token_letters _
                (split_tokens_letters _ (normalize_name_plain unidecode last_name)))
    as Hl.
  revert Hf Hl.
  generalize (first_token (split (normalize_name unidecode first_name))) as f.
  generalize (last_token (split (normalize_name unidecode last_name))) as l.
  intros l f Hf Hl. destruct f as [|fi f'], l as [|li l']; [constructor..|].
  assert (all_str pattern_char (String fi f') = true) as Hpf
    by (by apply (all_str_impl is_az), Hf; apply pattern_char_az).
  assert (all_str pattern_char (String li l') = true) as Hpl
    by (by apply (all_str_impl is_az), Hl; apply pattern_char_az).
  assert (pattern_char fi = true) as Hfi
    by (cbn [all_str] in Hpf; by apply andb_prop in Hpf as [? _]).
  assert (pattern_char li = true) as Hli
    by (cbn [all_str] in Hpl; by apply andb_prop in Hpl as [? _]).
  unfold local_parts. cbv zeta. cbn [fmap list_fmap].
  repeat (constructor;
          [eexists; split; [reflexivity|]; split; [done|];
           rewrite ?all_str_app, ?Hpf, ?Hpl; cbn [all_str];
           by rewrite ?Hfi, ?Hli|]).
  constructor.
Qed.

(** X13.  Every address the generator returns is a non-empty local
    part made of the characters a-z, dot, underscore and hyphen,
    followed by [@] and the domain as given; in particular the part
    before the domain has no [@] of its own. *)
Theorem generated_addresses_shape
    (unidecode : string → string) (first_name last_name : option string)
    (domain address : string) :
  address ∈ generate_email_patterns unidecode first_name last_name domain →
  ∃ local_part, address = local_part +:+ "@" +:+ domain
                ∧ nonempty local_part = true
                ∧ all_str pattern_char local_part = true
                ∧ mem_char "@" local_part = false.
Proof.
  intros Hin.
  pose proof (generated_addresses_have_shape unidecode first_name last_name
                domain) as Hshape.
  eapply Forall_forall in Hshape as (lp & -> & Hne & Hall); [|exact Hin].
  exists lp. repeat split; try done.
  by apply (all_str_mem_char pattern_char).
Qed.

Lemma generated_addresses_shape_witness :
  ∃ local_part, "j_smith@acme.com" = local_part +:+ "@" +:+ "acme.com"
                ∧ nonempty local_part = true.
Proof.
  destruct (generated_addresses_shape unidecode_sample
              (Some "John") (Some "Smith") "acme.com" "j_smith@acme.com")
    as (lp & Heq & Hne & _).
  - apply list_elem_of_In. vm_compute. tauto.
  - exists lp. by split.
Defined.

Lemma local_part_then_at (R : list item) (local_part rest : string) :
  nonempty local_part = true →
  all_str local_char local_part = true →
  match_len (Plus local_char :: Chr (is_char "@") :: R)
            (local_part +:+ "@" +:+ rest)
  = (fun n => (String.length local_part + S n)%nat) <$> match_len R rest.
Proof.
  induction local_part as [|c lp IH]; [done|]. intros _ Hall.
  cbn [all_str] in Hall. apply andb_prop in Hall as [Hc Hlp].
  change (String c lp +:+ "@" +:+ rest) with (String c (lp +:+ "@" +:+ rest)).
  destruct lp as [|c' lp'].
  - change (EmptyString +:+ "@" +:+ rest) with (String "@" rest).
    simpl. rewrite Hc. cbn. by destruct (match_len R rest).
  - specialize (IH eq_refl Hlp).
    change (String c' lp' +:+ "@" +:+ rest)
      with (String c' (lp' +:+ "@" +:+ rest)) in *.
    simpl in *. rewrite Hc, IH.
    apply andb_prop in Hlp as [Hc' _].
    assert (is_char "@" c' = false) as ->.
    { unfold is_char. destruct (Ascii.eqb_spec c' "@") as [->|]; [|done].
      by vm_compute in Hc'. }
    by destruct (match_len R rest).
Qed.

Lemma pattern_char_local c : pattern_char c = true → local_char c = true.
Proof. destruct c as [[] [] [] [] [] [] [] []]; vm_compute; done. Qed.

(** X14.  The syntax check never tells the candidates of one contact
    apart: for every address the generator returns, the check gives
    what the domain part of the pattern gives on the domain.  So the
    pattern loop skips either none of a contact's candidates or all of
    them. *)
Theorem syntax_check_depends_on_domain_only
    (unidecode : string → string) (first_name last_name : option string)
    (domain address : string) :
  address ∈ generate_email_patterns unidecode first_name last_name domain →
  quick_syntax_check address = matches domain_pattern domain.
Proof.
  intros Hin.
  pose proof (generated_addresses_have_shape unidecode first_name last_name
                domain) as Hshape.
  eapply Forall_forall in Hshape as (lp & -> & Hne & Hall); [|exact Hin].
  unfold quick_syntax_check, matches, syntax_pattern.
  rewrite local_part_then_at;
    [|done|by apply (all_str_impl pattern_char), Hall; apply pattern_char_local].
  fold domain_pattern.
  by destruct (match_len domain_pattern domain).
Qed.

Lemma syntax_check_depends_on_domain_only_witness :
  quick_syntax_check "j.smith@acme.com" = matches domain_pattern "acme.com".
Proof.
  apply (syntax_check_depends_on_domain_only unidecode_sample
           (Some "John") (Some "Smith") "acme.com" "j.smith@acme.com").
  apply list_elem_of_In. vm_compute. tauto.
Defined.

End CandidatesSpec.

(** ** Company names and contact results *)

Module CompanyNameSpec.
Import PyStr PyStrFacts Re DomainFinder PatternGeneratorFacts.

Lemma lower_char_idem c : lower_char (lower_char c) = lower_char c.
Proof. each_char c. Qed.

Lemma lower_idem s : lower (lower s) = lower s.
Proof.
  unfold lower. induction s as [|c s IH]; [done|].
  cbn [map_str]. by rewrite lower_char_idem, IH.
Qed.

Lemma all_str_sub_go p items skip s :
  all_str p s = true → all_str p (sub_go items skip s) = true.
Proof.
  revert skip. induction s as [|c s IH]; intros skip; [done|].
  intros [Hc Hs]%andb_prop. cbn [sub_go].
  destruct skip as [|k]; [|by apply IH].
  destruct (match_len items (String c s)) as [[|k]|]; cbn [all_str];
    rewrite ?Hc; by apply IH.
Qed.

Lemma all_str_foldl_sub p patterns s :
  all_str p s = true →
  all_str p (foldl (fun acc pat => sub_remove pat acc) s patterns) = true.
Proof.
  revert s. induction patterns as [|pat patterns IH]; intros s Hs; [done|].
  cbn [foldl]. apply IH. by apply all_str_sub_go.
Qed.

(** X15.  Company-name normalization does not depend on the case of the
    letters: a name and its lowercase form normalize to the same string.
    The result is in lowercase and has no blank at either end. *)
Theorem normalize_company_name_shape (company : string) :
  normalize_company_name (lower company) = normalize_company_name company
  ∧ lower (normalize_company_name company) = normalize_company_name company
  ∧ strip (normalize_company_name company) = normalize_company_name company.
Proof.
  unfold normalize_company_name. split; [by rewrite lower_idem|].
  split; [|apply strip_idem].
  apply (map_str_id (fun c => Ascii.eqb (lower_char c) c)).
  { intros c. by destruct (Ascii.eqb_spec (lower_char c) c). }
  apply all_str_strip, all_str_foldl_sub, all_str_strip.
  apply (all_str_map (fun _ => true)); [|by induction company].
  intros c _. rewrite lower_char_idem. apply Ascii.eqb_refl.
Qed.

End CompanyNameSpec.

Module ContactResultSpec.
Import PyStr PatternGenerator Env EmailVerifier DomainFinder EmailFinder.
Import EmailFinderSpec.

(** X16.  A contact without a first name, a last name or a company is
    answered with status missing_data at once: no domain is resolved and
    nothing is probed; the finder and the state are left as they are. *)
Theorem missing_data_does_nothing
    (unidecode : string → string) (w : World) (self : Finder)
    (first_name last_name company : option string) (s : state) :
  truthy first_name = false ∨ truthy last_name = false
  ∨ truthy company = false →
  ∃ contact,
    find_email_for_contact unidecode w self first_name last_name company s
    = ((contact, self), s)
    ∧ verification_status contact = "missing_data"
    ∧ found_email contact = None ∧ domain contact = None
    ∧ patterns_tried contact = 0%nat.
Proof.
  intros Hmissing. unfold find_email_for_contact.
  assert (negb (truthy first_name) || negb (truthy last_name)
          || negb (truthy company) = true) as ->.
  { destruct Hmissing as [-> | [-> | ->]]; cbn;
      by rewrite ?orb_true_r. }
  eexists. by split.
Qed.

Lemma missing_data_does_nothing_witness :
  ∃ contact,
    find_email_for_contact unidecode_sample
      (acme_world second_try_accepts) new_finder
      (Some "John") (Some "") (Some "Acme Corp") initial
    = ((contact, new_finder), initial)
    ∧ verification_status contact = "missing_data".
Proof.
  destruct (missing_data_does_nothing unidecode_sample
              (acme_world second_try_accepts) new_finder
              (Some "John") (Some "") (Some "Acme Corp") initial)
    as (contact & Hrun & Hstatus & _); [right; left; reflexivity|].
  exists contact. by split.
Defined.

(** The loop that runs to its end over candidates that are all skipped
    or inconclusive. *)
Lemma try_patterns_exhausted (w : World) (candidates : list string)
    (i : nat) (s s' : state) :
  runs_inconclusive w candidates s = Some s' →
  try_patterns w i candidates s = (None, s').
Proof.
  revert i s. induction candidates as [|candidate rest IH]; intros i s.
  { by intros [= ->]. }
  cbn [runs_inconclusive try_patterns].
  destruct (negb (quick_syntax_check candidate)); [apply IH|].
  unfold mbind, M_bind, emit.
  destruct (verify_email_smtp w candidate s) as [v s1].
  destruct (result v); try done; apply IH.
Qed.

Lemma try_patterns_valid
    (w : World) (pre post : list string) (candidate : string)
    (i : nat) (s1 s2 s3 : state) (v : EmailVerification) :
  runs_inconclusive w pre s1 = Some s2 →
  quick_syntax_check candidate = true →
  verify_email_smtp w candidate s2 = (v, s3) →
  result v = VALID →
  try_patterns w i (pre ++ candidate :: post) s1
  = (Some (Verified candidate (i + length pre)), s3).
Proof.
  intros Hpre Hcheck Hprobe Hresult.
  revert i s1 Hpre. induction pre as [|email pre IH]; intros i s1 Hpre.
  - cbn [runs_inconclusive] in Hpre. injection Hpre as ->.
    cbn [app try_patterns length]. rewrite Hcheck. cbn [negb].
    unfold mbind, M_bind. rewrite Hprobe, Hresult.
    by rewrite Nat.add_0_r.
  - cbn [runs_inconclusive] in Hpre. cbn [app try_patterns length].
    destruct (negb (quick_syntax_check email)).
    + rewrite (IH (S i) s1 Hpre). do 3 f_equal. lia.
    + unfold mbind, M_bind.
      destruct (verify_email_smtp w email s1) as [v' s'].
      destruct (result v'); try discriminate Hpre;
        unfold emit; rewrite (IH (S i) _ Hpre); do 3 f_equal; lia.
Qed.

(** The bounds of the index the loop stops at. *)
Lemma try_patterns_index (w : World) (candidates : list string)
    (i : nat) (s : state) :
  match (try_patterns w i candidates s).1 with
  | Some (Verified email j) =>
      (i ≤ j < i + length candidates)%nat
      ∧ candidates !! (j - i)%nat = Some email
  | Some (CatchAll j) => (i ≤ j < i + length candidates)%nat
  | None => True
  end.
Proof.
  revert i s. induction candidates as [|candidate rest IH]; intros i s; [done|].
  cbn [try_patterns length].
  assert (∀ s0,
            match (try_patterns w (S i) rest s0).1 with
            | Some (Verified email j) =>
                (i ≤ j < i + S (length rest))%nat
                ∧ (candidate :: rest) !! (j - i)%nat = Some email
            | Some (CatchAll j) => (i ≤ j < i + S (length rest))%nat
            | None => True
            end) as Hnext.
  { intros s0. specialize (IH (S i) s0).
    destruct (try_patterns w (S i) rest s0).1 as [[email j|j]|]; [|lia|done].
    destruct IH as [Hj Hlookup]. split; [lia|].
    replace (j - i)%nat with (S (j - S i)) by lia. done. }
  destruct (negb (quick_syntax_check candidate)); [apply Hnext|].
  unfold mbind, M_bind, emit.
  destruct (verify_email_smtp w candidate s) as [v s1].
  destruct (result v); cbn [fst mret M_ret]; try apply Hnext.
  - split; [lia|]. by rewrite Nat.sub_diag.
  - lia.
Qed.


(** The run of [find_email_for_contact] once the fields are present, the
    domain is resolved and there are patterns. *)
Lemma find_email_after_resolution
    (unidecode : string → string) (w : World) (self : Finder)
    (first_name last_name company : option string) (dom : string)
    (cache : option (gmap string string)) (s s1 : state)
    (first_pattern : string) (others : list string) :
  truthy first_name = true → truthy last_name = true →
  truthy company = true →
  find_domain w (default EmptyString company) (Some (domain_cache self)) s
    = ((Some dom, cache), s1) →
  nonempty dom = true →
  generate_email_patterns unidecode first_name last_name dom
    = first_pattern :: others →
  let self' := with_domain_cache self (default (domain_cache self) cache) in
  let answer found status tried :=
    {| first_name := default EmptyString first_name;
       last_name := default EmptyString last_name;
       company := default EmptyString company;
       domain := Some dom; found_email := found;
       verification_status := status; patterns_tried := tried |} in
  find_email_for_contact unidecode w self first_name last_name company s
  = if verify self then
      let (outcome, s2) :=
        try_patterns w 0 (take 8 (first_pattern :: others)) s1 in
      match outcome with
      | Some (Verified email i) =>
          ((answer (Some email) "verified" (i + 1)%nat,
            with_stats self' (count_found ∘ count_verified)), s2)
      | Some (CatchAll i) =>
          ((answer (Some first_pattern) "catch_all" (i + 1)%nat,
            with_stats self' (count_found ∘ count_catch_all)), s2)
      | None =>
          ((answer None "not_found" (length (take 8 (first_pattern :: others))),
            with_stats self' count_no_match), s2)
      end
    else ((answer (Some first_pattern) "unverified" 1%nat,
           with_stats self' count_found), s1).
Proof.
  intros Hfirst Hlast Hcompany Hfind Hdom Hpatterns. cbv zeta.
  unfold find_email_for_contact.
  rewrite Hfirst, Hlast, Hcompany. cbn [negb orb].
  unfold mbind at 1. unfold M_bind at 1. rewrite Hfind.
  cbv beta iota. cbn [truthy]. rewrite Hdom.
  cbn [negb default from_option]. unfold id. rewrite Hpatterns.
  cbn [verify with_domain_cache]. destruct (verify self); [|done].
  cbn [negb]. unfold mbind, M_bind.
  destruct (try_patterns w 0 (take 8 (first_pattern :: others)) s1)
    as [[[email i|i]|] s2]; done.
Qed.

(** X17.  With verification off, a contact whose domain resolves and who
    has patterns gets the first pattern with status unverified and one
    pattern tried, and nothing is probed: the state is the one the
    resolution of the domain left. *)
Theorem unverified_takes_first_pattern
    (unidecode : string → string) (w : World) (self : Finder)
    (first_name last_name company : option string) (dom : string)
    (cache : option (gmap string string)) (s s1 : state) :
  truthy first_name = true → truthy last_name = true →
  truthy company = true →
  verify self = false →
  find_domain w (default EmptyString company) (Some (domain_cache self)) s
    = ((Some dom, cache), s1) →
  nonempty dom = true →
  let patterns := generate_email_patterns unidecode first_name last_name dom in
  patterns ≠ [] →
  let run :=
    find_email_for_contact unidecode w self first_name last_name company s in
  run.2 = s1
  ∧ verification_status run.1.1 = "unverified"
  ∧ found_email run.1.1 = patterns !! 0%nat
  ∧ patterns_tried run.1.1 = 1%nat
  ∧ found (stats run.1.2) = S (found (stats self)).
Proof.
  intros Hfirst Hlast Hcompany Hverify Hfind Hdom patterns Hpatterns run.
  subst patterns run.
  destruct (generate_email_patterns unidecode first_name last_name dom)
    as [|first_pattern others] eqn:Hgen; [done|].
  rewrite (find_email_after_resolution unidecode w self first_name last_name
             company dom cache s s1 first_pattern others) by done.
  by rewrite Hverify.
Qed.

Lemma unverified_takes_first_pattern_witness :
  let run :=
    find_email_for_contact unidecode_sample
      (acme_world second_try_accepts)
      {| concurrency := 3; verify := false; domain_cache := ∅;
         stats := stats new_finder |}
      (Some "John") (Some "Smith") (Some "Acme Corp") initial in
  verification_status run.1.1 = "unverified"
  ∧ found_email run.1.1 = Some "john.smith@acme.com"
  ∧ log run.2 = [DnsQuery "MX" "acme.com"].
Proof.
  pose (w := acme_world second_try_accepts).
  pose (self := {| concurrency := 3; verify := false; domain_cache := ∅;
                   stats := stats new_finder |}).
  pose (resolved := find_domain w "Acme Corp" (Some ∅) initial).
  destruct (unverified_takes_first_pattern unidecode_sample w self
              (Some "John") (Some "Smith") (Some "Acme Corp") "acme.com"
              resolved.1.2 initial resolved.2)
    as (Hstate & Hstatus & Hemail & _).
  - reflexivity.
  - reflexivity.
  - reflexivity.
  - reflexivity.
  - vm_compute. reflexivity.
  - reflexivity.
  - by vm_compute.
  - cbv zeta. split; [exact Hstatus|]. split.
    + etrans; [exact Hemail|reflexivity].
    + etrans; [exact (f_equal log Hstate)|reflexivity].
Defined.

(** X18.  The counterpart of the catch-all rule for a confirmed
    address: when the candidate at index [i] of the first eight patterns
    is probed VALID, every candidate before it having been skipped or
    probed with an outcome other than VALID and CATCH_ALL, the contact's
    result has status verified, its email is that candidate, and the
    number of patterns tried is [i + 1]. *)
Theorem valid_reports_probed_candidate
    (unidecode : string → string) (w : World) (self : Finder)
    (first_name last_name company : option string) (dom : string)
    (cache : option (gmap string string))
    (pre post : list string) (candidate : string)
    (s s1 s2 s3 : state) (v : EmailVerification) :
  truthy first_name = true → truthy last_name = true →
  truthy company = true →
  verify self = true →
  find_domain w (default EmptyString company) (Some (domain_cache self)) s
    = ((Some dom, cache), s1) →
  nonempty dom = true →
  take 8 (generate_email_patterns unidecode first_name last_name dom)
    = pre ++ candidate :: post →
  runs_inconclusive w pre s1 = Some s2 →
  quick_syntax_check candidate = true →
  verify_email_smtp w candidate s2 = (v, s3) →
  result v = VALID →
  let run :=
    find_email_for_contact unidecode w self first_name last_name company s in
  verification_status run.1.1 = "verified"
  ∧ found_email run.1.1 = Some candidate
  ∧ patterns_tried run.1.1 = (length pre + 1)%nat
  ∧ verified (stats run.1.2) = S (verified (stats self))
  ∧ run.2 = s3.
Proof.
  intros Hfirst Hlast Hcompany Hverify Hfind Hdom Htake Hpre Hcheck Hprobe
    Hresult run. subst run.
  destruct (generate_email_patterns unidecode first_name last_name dom)
    as [|first_pattern others] eqn:Hgen; [by destruct pre|].
  rewrite (find_email_after_resolution unidecode w self first_name last_name
             company dom cache s s1 first_pattern others) by done.
  rewrite Hverify, Htake.
  by rewrite (try_patterns_valid w pre post candidate 0 s1 s2 s3 v).
Qed.

Lemma valid_reports_probed_candidate_witness :
  let run :=
    find_email_for_contact unidecode_sample
      (acme_world (fun _ => silent_after_rcpt)) new_finder
      (Some "John") (Some "Smith") (Some "Acme Corp") initial in
  verification_status run.1.1 = "verified"
  ∧ found_email run.1.1 = Some "john.smith@acme.com"
  ∧ patterns_tried run.1.1 = 1%nat.
Proof.
  pose (w := acme_world (fun _ => silent_after_rcpt)).
  pose (resolved := find_domain w "Acme Corp" (Some ∅) initial).
  pose (probe := verify_email_smtp w "john.smith@acme.com" resolved.2).
  destruct (valid_reports_probed_candidate unidecode_sample w new_finder
              (Some "John") (Some "Smith") (Some "Acme Corp") "acme.com"
              resolved.1.2 []
              (drop 1 (take 8 (generate_email_patterns unidecode_sample
                                 (Some "John") (Some "Smith") "acme.com")))
              "john.smith@acme.com"
              initial resolved.2 resolved.2 probe.2 probe.1)
    as (Hstatus & Hemail & Htried & _).
  - reflexivity.
  - reflexivity.
  - reflexivity.
  - reflexivity.
  - vm_compute. reflexivity.
  - reflexivity.
  - vm_compute. reflexivity.
  - reflexivity.
  - reflexivity.
  - vm_compute. reflexivity.
  - vm_compute. reflexivity.
  - cbv zeta. split; [exact Hstatus|]. split; [exact Hemail|exact Htried].
Defined.

(** X19.  When every one of the first eight patterns is skipped or
    probed with an outcome other than VALID and CATCH_ALL, the contact's
    result has status not_found and no email, the number of patterns
    tried is the number of patterns the loop went over, and the no_match
    counter goes up by one. *)
Theorem exhausted_patterns_give_not_found
    (unidecode : string → string) (w : World) (self : Finder)
    (first_name last_name company : option string) (dom : string)
    (cache : option (gmap string string)) (s s1 s2 : state) :
  truthy first_name = true → truthy last_name = true →
  truthy company = true →
  verify self = true →
  find_domain w (default EmptyString company) (Some (domain_cache self)) s
    = ((Some dom, cache), s1) →
  nonempty dom = true →
  let patterns := generate_email_patterns unidecode first_name last_name dom in
  patterns ≠ [] →
  runs_inconclusive w (take 8 patterns) s1 = Some s2 →
  let run :=
    find_email_for_contact unidecode w self first_name last_name company s in
  verification_status run.1.1 = "not_found"
  ∧ found_email run.1.1 = None
  ∧ patterns_tried run.1.1 = length (take 8 patterns)
  ∧ no_match (stats run.1.2) = S (no_match (stats self))
  ∧ found (stats run.1.2) = found (stats self).
Proof.
  intros Hfirst Hlast Hcompany Hverify Hfind Hdom patterns Hpatterns Hrun run.
  subst patterns run.
  destruct (generate_email_patterns unidecode first_name last_name dom)
    as [|first_pattern others] eqn:Hgen; [done|].
  rewrite (find_email_after_resolution unidecode w self first_name last_name
             company dom cache s s1 first_pattern others) by done.
  rewrite Hverify.
  by rewrite (try_patterns_exhausted w _ 0 s1 s2 Hrun).
Qed.

Lemma exhausted_patterns_give_not_found_witness :
  let run :=
    find_email_for_contact unidecode_sample
      (acme_world (fun _ => unknown_user)) new_finder
      (Some "John") (Some "Smith") (Some "Acme Corp") initial in
  verification_status run.1.1 = "not_found"
  ∧ found_email run.1.1 = None
  ∧ patterns_tried run.1.1 = 8%nat.
Proof.
  pose (w := acme_world (fun _ => unknown_user)).
  pose (resolved := find_domain w "Acme Corp" (Some ∅) initial).
  pose (s2 := runs_inconclusive w
                (take 8 (generate_email_patterns unidecode_sample
                           (Some "John") (Some "Smith") "acme.com"))
                resolved.2).
  destruct (exhausted_patterns_give_not_found unidecode_sample w new_finder
              (Some "John") (Some "Smith") (Some "Acme Corp") "acme.com"
              resolved.1.2 initial resolved.2 (default initial s2))
    as (Hstatus & Hemail & Htried & _).
  - reflexivity.
  - reflexivity.
  - reflexivity.
  - reflexivity.
  - vm_compute. reflexivity.
  - reflexivity.
  - by vm_compute.
  - vm_compute. reflexivity.
  - cbv zeta. split; [exact Hstatus|]. split; [exact Hemail|].
    etrans; [exact Htried|reflexivity].
Defined.


(** The run of [find_email_for_contact] in the cases that end before
    the loop. *)
Lemma find_email_early
    (unidecode : string → string) (w : World) (self : Finder)
    (first_name last_name company : option string) (s : state) :
  let run :=
    find_email_for_contact unidecode w self first_name last_name company s in
  let resolved :=
    find_domain w (default EmptyString company) (Some (domain_cache self)) s in
  (truthy first_name && truthy last_name && truthy company = false →
   run.1.2 = self ∧ run.2 = s ∧ domain run.1.1 = None
   ∧ found_email run.1.1 = None ∧ patterns_tried run.1.1 = 0%nat
   ∧ verification_status run.1.1 = "missing_data")
  ∧ (truthy first_name && truthy last_name && truthy company = true →
     truthy resolved.1.1 = false →
     domain run.1.1 = None
     ∧ found_email run.1.1 = None ∧ patterns_tried run.1.1 = 0%nat
     ∧ verification_status run.1.1 = "no_domain"
     ∧ found (stats run.1.2) = found (stats self))
  ∧ (truthy first_name && truthy last_name && truthy company = true →
     ∀ d, resolved.1.1 = Some d → nonempty d = true →
     generate_email_patterns unidecode first_name last_name d = [] →
     domain run.1.1 = Some d
     ∧ found_email run.1.1 = None ∧ patterns_tried run.1.1 = 0%nat
     ∧ verification_status run.1.1 = "no_patterns"
     ∧ found (stats run.1.2) = found (stats self)).
Proof.
  cbv zeta. unfold find_email_for_contact. split; [|split].
  - intros Hmissing.
    assert (negb (truthy first_name) || negb (truthy last_name)
            || negb (truthy company) = true) as ->; [|done].
    by destruct (truthy first_name), (truthy last_name), (truthy company).
  - intros [[-> ->]%andb_prop ->]%andb_prop. cbn [negb orb].
    unfold mbind, M_bind.
    destruct (find_domain w _ _ s) as [[resolved cache] s1].
    cbn [fst snd]. by intros ->.
  - intros [[-> ->]%andb_prop ->]%andb_prop d. cbn [negb orb].
    unfold mbind, M_bind.
    destruct (find_domain w _ _ s) as [[resolved cache] s1].
    cbn [fst snd]. intros -> Hd Hgen. cbn [truthy]. rewrite Hd.
    cbn [negb default from_option]. unfold id. by rewrite Hgen.
Qed.

(** X20.  What holds of every contact result: at most eight patterns
    are tried; the status is one of the seven of the source; an email
    is reported exactly when the status is verified, catch_all or
    unverified; the counter of found emails goes up by one exactly when
    an email is reported; and a reported email is one of the first eight
    patterns generated for the contact and the reported domain. *)
Ltac status_in := apply list_elem_of_In; cbn; tauto.
Ltac status_out :=
  let H := fresh in
  intros H; apply list_elem_of_In in H; cbn in H; intuition discriminate.

Theorem contact_result_invariants
    (unidecode : string → string) (w : World) (self : Finder)
    (first_name last_name company : option string) (s : state) :
  let run :=
    find_email_for_contact unidecode w self first_name last_name company s in
  (patterns_tried run.1.1 ≤ 8)%nat
  ∧ verification_status run.1.1
    ∈ [ "missing_data"; "no_domain"; "no_patterns"; "unverified";
        "verified"; "catch_all"; "not_found" ]
  ∧ (is_Some (found_email run.1.1)
     ↔ verification_status run.1.1 ∈ ["verified"; "catch_all"; "unverified"])
  ∧ found (stats run.1.2)
    = (found (stats self)
       + match found_email run.1.1 with Some _ => 1 | None => 0 end)%nat
  ∧ ∀ e, found_email run.1.1 = Some e →
         ∃ d, domain run.1.1 = Some d
              ∧ e ∈ take 8 (generate_email_patterns unidecode
                              first_name last_name d).
Proof.
  cbv zeta.
  destruct (find_email_early unidecode w self first_name last_name company s)
    as (Hmissing & Hnodomain & Hnopatterns).
  destruct (truthy first_name && truthy last_name && truthy company) eqn:Hall.
  2:{ destruct (Hmissing eq_refl) as (-> & _ & _ & -> & -> & ->).
      split; [lia|]. split; [status_in|]. split; [|split; [lia|done]].
      split; [by intros [? ?]|status_out]. }
  clear Hmissing. apply andb_prop in Hall as [[Hfirst Hlast]%andb_prop Hcompany].
  destruct (find_domain w (default EmptyString company)
              (Some (domain_cache self)) s) as [[resolved cache] s1] eqn:Hfind.
  cbn [fst snd] in *.
  destruct (truthy resolved) eqn:Hresolved.
  2:{ destruct (Hnodomain eq_refl eq_refl) as (_ & -> & -> & -> & ->).
      split; [lia|]. split; [status_in|]. split; [|split; [lia|done]].
      split; [by intros [? ?]|status_out]. }
  destruct resolved as [d|]; [|done]. cbn [truthy] in Hresolved.
  destruct (generate_email_patterns unidecode first_name last_name d)
    as [|first_pattern others] eqn:Hgen.
  { destruct (Hnopatterns eq_refl d eq_refl Hresolved Hgen)
      as (_ & -> & -> & -> & ->).
    split; [lia|]. split; [status_in|]. split; [|split; [lia|done]].
    split; [by intros [? ?]|status_out]. }
  clear Hnodomain Hnopatterns.
  rewrite (find_email_after_resolution unidecode w self first_name last_name
             company d cache s s1 first_pattern others) by done.
  destruct (verify self).
  2:{ cbn. split; [lia|]. split; [status_in|]. split; [|split; [lia|]].
      - split; [intros _; status_in|eauto].
      - intros e [= <-]. exists d. split; [done|]. rewrite Hgen.
        apply list_elem_of_here. }
  pose proof (try_patterns_index w (take 8 (first_pattern :: others)) 0 s1)
    as Hindex.
  assert (length (take 8 (first_pattern :: others)) ≤ 8)%nat as Hlen
    by (rewrite length_take; lia).
  destruct (try_patterns w 0 (take 8 (first_pattern :: others)) s1)
    as [[[email i|i]|] s2]; cbn [fst snd] in Hindex.
  - destruct Hindex as [Hi Hlookup]. rewrite Nat.sub_0_r in Hlookup.
    cbn. split; [lia|]. split; [status_in|]. split; [|split; [lia|]].
    + split; [intros _; status_in|eauto].
    + intros e [= <-]. exists d. split; [done|]. rewrite Hgen.
      by eapply list_elem_of_lookup_2.
  - cbn. split; [lia|]. split; [status_in|]. split; [|split; [lia|]].
    + split; [intros _; status_in|eauto].
    + intros e [= <-]. exists d. split; [done|]. rewrite Hgen.
      apply list_elem_of_here.
  - cbn. cbn in Hlen. split; [lia|]. split; [status_in|].
    split; [|split; [lia|done]].
    split; [by intros [? ?]|status_out].
Qed.



End ContactResultSpec.
